(** * Password-reset and login statics of the Users model

    A shallow embedding of the collection statics [findByCreds],
    [findByEmailAndRequestResetPasswordCode],
    [findByEmailAndRequestResetPasswordToken] and
    [findByEmailAndResetPassword], together with the part of the document
    store they rely on, and the properties of the reset protocol. *)

From Stdlib Require Import ZArith Ascii String.
From stdpp Require Import base decidable option list sets strings pretty.

Local Open Scope Z_scope.

(** ** JavaScript strings

    Strings are sequences of code units below 256 (the Latin-1 range).
    On that range [String.prototype.toLowerCase] maps A-Z and the accented
    capitals U+00C0..U+00DE (except the multiplication sign U+00D7) to the
    letter 32 places further, and [String.prototype.trim] removes, at both
    ends, the white space and line terminator characters TAB, LF, VT, FF,
    CR, SPACE and NO-BREAK SPACE. *)
Module JS.

Definition lower_char (c : ascii) : ascii :=
  let n := N_of_ascii c in
  if ((65 <=? n) && (n <=? 90))%N then ascii_of_N (n + 32)
  else if ((192 <=? n) && (n <=? 222) && negb (n =? 215))%N
       then ascii_of_N (n + 32)
  else c.

Fixpoint toLowerCase (s : string) : string :=
  match s with
  | EmptyString => EmptyString
  | String c r => String (lower_char c) (toLowerCase r)
  end.

Definition is_space (c : ascii) : bool :=
  let n := N_of_ascii c in
  (((9 <=? n) && (n <=? 13)) || (n =? 32) || (n =? 160))%N.

Fixpoint trimStart (s : string) : string :=
  match s with
  | EmptyString => EmptyString
  | String c r => if is_space c then trimStart r else s
  end.

Fixpoint trimEnd (s : string) : string :=
  match s with
  | EmptyString => EmptyString
  | String c r =>
      match trimEnd r with
      | EmptyString => if is_space c then EmptyString else String c EmptyString
      | r' => String c r'
      end
  end.

Definition trim (s : string) : string := trimEnd (trimStart s).

End JS.

(** ** The user document *)

(** [resetPasswordCode: { code, requestedAt }]; dates are kept as their
    [getTime()] value, milliseconds since the epoch. *)
Record ResetPasswordCode := {
  code : string;
  code_requestedAt : Z;
}.

(** [resetPasswordToken: { token, requestedAt }]. *)
Record ResetPasswordToken := {
  token : string;
  token_requestedAt : Z;
}.

(** The fields of a user the statics read or write.  An [undefined]
    sub-document is [None]. *)
Record User := {
  email : string;
  password : string;
  resetPasswordCode : option ResetPasswordCode;
  resetPasswordToken : option ResetPasswordToken;
  resetPasswordCodeGuessCount : Z;
}.

(** The document paths the statics assign or unset. *)
Inductive Path :=
  | path_password
  | path_resetPasswordCode
  | path_resetPasswordToken
  | path_resetPasswordCodeGuessCount.

Global Instance Path_eq_dec : EqDecision Path.
Proof. solve_decision. Defined.

(** A document loaded from the collection: the stored record it was read
    from (its position in the collection stands for its [_id]), the
    in-memory value, and the paths assigned since it was loaded.  Assigning
    a property changes the in-memory value only. *)
Record Document := {
  doc_id : nat;
  doc_user : User;
  doc_modified : list Path;
}.

(** Every [throw new Error(msg)] of the statics, by its message. *)
Record Error := { message : string }.

Global Instance Error_eq_dec : EqDecision Error.
Proof. solve_decision. Defined.

(** ** Constants and collaborators that live outside the statics *)

(** The constants of [./utils]. Durations are in milliseconds. *)
Class Utils := {
  RESET_PASSWORD_CODE_LENGTH : nat;
  RESET_PASSWORD_MAX_GUESS_COUNT : Z;
  RESET_PASSWORD_CODE_TIME_PERIOD_LENGTH : Z;
  RESET_PASSWORD_TOKEN_TIME_PERIOD_LENGTH : Z;
  RESET_PASSWORD_TOKEN_RANDOM_NUM_LENGTH : nat;
}.

(** The user methods, the [bcrypt] functions, [Date.prototype.toISOString]
    and the session token generator [AuthTokens.generate] the statics call.
    [AuthTokens_generate] receives the user's [_id] and a fresh nonce. *)
Class Methods := {
  PublicUser : Type;
  sha256 : string → string;
  hashString : string → string;
  bcrypt_hash : string → string;
  bcrypt_compare : string → string → bool;
  toISOString : Z → string;
  getPublic : User → PublicUser;
  AuthTokens_generate : nat → nat → string;
}.

(** ** The world the statics run in

    The users collection, the clock and the random source.  [clock k] is
    what the [k]-th [new Date()] reads, [rng k] the [k]-th random draw;
    the two counters say how many have been used. *)
Record World := {
  users : list User;
  clock : nat → Z;
  clock_reads : nat;
  rng : nat → nat;
  rng_draws : nat;
}.

Definition with_users (f : list User → list User) (w : World) : World :=
  {| users := f (users w); clock := clock w; clock_reads := clock_reads w;
     rng := rng w; rng_draws := rng_draws w |}.

(** An asynchronous static: it runs against the world and either throws
    or returns.  What was persisted before a throw stays persisted. *)
Definition M (A : Type) : Type := World → (Error + A) * World.

Global Instance M_ret : MRet M := λ A a w, (inr a, w).
Global Instance M_bind : MBind M := λ A B f m w,
  match m w with
  | (inl e, w') => (inl e, w')
  | (inr a, w') => f a w'
  end.

Definition throw {A} (msg : string) : M A := λ w, (inl {| message := msg |}, w).

(** [new Date()] *)
Definition newDate : M Z := λ w,
  (inr (clock w (clock_reads w)),
   {| users := users w; clock := clock w; clock_reads := S (clock_reads w);
      rng := rng w; rng_draws := rng_draws w |}).

(** One draw from the random source. *)
Definition draw : M nat := λ w,
  (inr (rng w (rng_draws w)),
   {| users := users w; clock := clock w; clock_reads := clock_reads w;
      rng := rng w; rng_draws := S (rng_draws w) |}).

Definition digit (n : nat) : ascii := ascii_of_nat (48 + n `mod` 10).

Fixpoint digits (src : nat → nat) (from len : nat) : string :=
  match len with
  | O => EmptyString
  | S n => String (digit (src from)) (digits src (S from) n)
  end.

(** Modelled from the spec: [utils.generateVerificationCode], which is not
    part of the statics file (SecureRandom.numeric(length) -> string, "a
    fixed-length numeric code"): [len] decimal digits, each taken from the
    next draw of the random source. *)
Definition generateVerificationCode (len : nat) : M string := λ w,
  (inr (digits (rng w) (rng_draws w) len),
   {| users := users w; clock := clock w; clock_reads := clock_reads w;
      rng := rng w; rng_draws := (rng_draws w + len)%nat |}).

(** ** The document store *)

(** The first stored user whose email is exactly the given string, with
    its position. *)
Definition find_user (e : string) (us : list User) : option (nat * User) :=
  list_find (λ u, email u = e) us.

Definition load (found : nat * User) : Document :=
  {| doc_id := found.1; doc_user := found.2; doc_modified := [] |}.

(** [Model.findOne({ email })] *)
Definition findOne (e : string) : M (option Document) := λ w,
  (inr (load <$> find_user e (users w)), w).

(** Property assignments on a loaded document. *)
Definition set_password (v : string) (d : Document) : Document :=
  let u := doc_user d in
  {| doc_id := doc_id d;
     doc_user := {| email := email u; password := v;
                    resetPasswordCode := resetPasswordCode u;
                    resetPasswordToken := resetPasswordToken u;
                    resetPasswordCodeGuessCount := resetPasswordCodeGuessCount u |};
     doc_modified := path_password :: doc_modified d |}.

Definition set_resetPasswordCode (v : option ResetPasswordCode) (d : Document)
  : Document :=
  let u := doc_user d in
  {| doc_id := doc_id d;
     doc_user := {| email := email u; password := password u;
                    resetPasswordCode := v;
                    resetPasswordToken := resetPasswordToken u;
                    resetPasswordCodeGuessCount := resetPasswordCodeGuessCount u |};
     doc_modified := path_resetPasswordCode :: doc_modified d |}.

Definition set_resetPasswordToken (v : option ResetPasswordToken) (d : Document)
  : Document :=
  let u := doc_user d in
  {| doc_id := doc_id d;
     doc_user := {| email := email u; password := password u;
                    resetPasswordCode := resetPasswordCode u;
                    resetPasswordToken := v;
                    resetPasswordCodeGuessCount := resetPasswordCodeGuessCount u |};
     doc_modified := path_resetPasswordToken :: doc_modified d |}.

Definition set_resetPasswordCodeGuessCount (v : Z) (d : Document) : Document :=
  let u := doc_user d in
  {| doc_id := doc_id d;
     doc_user := {| email := email u; password := password u;
                    resetPasswordCode := resetPasswordCode u;
                    resetPasswordToken := resetPasswordToken u;
                    resetPasswordCodeGuessCount := v |};
     doc_modified := path_resetPasswordCodeGuessCount :: doc_modified d |}.

(** [$unset] of one path on a stored record.  The statics only ever unset
    the two reset sub-documents. *)
Definition unset (p : Path) (u : User) : User :=
  match p with
  | path_resetPasswordCode =>
      {| email := email u; password := password u;
         resetPasswordCode := None;
         resetPasswordToken := resetPasswordToken u;
         resetPasswordCodeGuessCount := resetPasswordCodeGuessCount u |}
  | path_resetPasswordToken =>
      {| email := email u; password := password u;
         resetPasswordCode := resetPasswordCode u;
         resetPasswordToken := None;
         resetPasswordCodeGuessCount := resetPasswordCodeGuessCount u |}
  | _ => u
  end.

(** [user.update({ $unset: { p: "" } })]: an update sent to the collection
    for the stored record of this document; the in-memory document keeps
    its value and its list of modified paths. *)
Definition update_unset (p : Path) (d : Document) : M () := λ w,
  (inr (), with_users (alter (unset p) (doc_id d)) w).

Section Statics.
Context `{!Utils, !Methods}.

(** Modelled from the spec: the schema's pre-save hook, which is not part
    of the statics file.  A reset code that was assigned is replaced by its
    fast hash ("Store its hash (fast one-way function)"), a password that
    was assigned by its slow hash ("slow-hash the new password and set as
    credentialHash"). *)
Definition preSave (d : Document) : User :=
  let u := doc_user d in
  {| email := email u;
     password :=
       if bool_decide (path_password ∈ doc_modified d)
       then bcrypt_hash (password u) else password u;
     resetPasswordCode :=
       if bool_decide (path_resetPasswordCode ∈ doc_modified d)
       then (λ rc, {| code := sha256 (code rc);
                      code_requestedAt := code_requestedAt rc |})
              <$> resetPasswordCode u
       else resetPasswordCode u;
     resetPasswordToken := resetPasswordToken u;
     resetPasswordCodeGuessCount := resetPasswordCodeGuessCount u |}.

(** What [save] writes: the modified paths of the document, everything
    else is left as stored. *)
Definition write_modified (paths : list Path) (doc stored : User) : User :=
  {| email := email stored;
     password :=
       if bool_decide (path_password ∈ paths)
       then password doc else password stored;
     resetPasswordCode :=
       if bool_decide (path_resetPasswordCode ∈ paths)
       then resetPasswordCode doc else resetPasswordCode stored;
     resetPasswordToken :=
       if bool_decide (path_resetPasswordToken ∈ paths)
       then resetPasswordToken doc else resetPasswordToken stored;
     resetPasswordCodeGuessCount :=
       if bool_decide (path_resetPasswordCodeGuessCount ∈ paths)
       then resetPasswordCodeGuessCount doc
       else resetPasswordCodeGuessCount stored |}.

(** [user.save()]: runs the hook on the document, writes its modified
    paths to the stored record, and leaves the document clean. *)
Definition save (d : Document) : M Document := λ w,
  (inr {| doc_id := doc_id d; doc_user := preSave d; doc_modified := [] |},
   with_users (alter (write_modified (doc_modified d) (preSave d)) (doc_id d)) w).

(** *** findByCreds *)

Record Session := {
  session_user : PublicUser;
  session_token : string;
}.

Definition findByCreds (email password_ : string) : M Session :=
  user ← findOne (JS.trim (JS.toLowerCase email));
  match user with
  | None => throw "[[translation:339ca901-d88e-4e10-916a-95c54a4ed932]]"
  | Some user =>
      let isMatch := bcrypt_compare password_ (password (doc_user user)) in
      if negb isMatch
      then throw "[[translation:339ca901-d88e-4e10-916a-95c54a4ed932]]"
      else
        nonce ← draw;
        let token := AuthTokens_generate (doc_id user) nonce in
        mret {| session_user := getPublic (doc_user user);
                session_token := token |}
  end.

(** *** findByEmailAndRequestResetPasswordCode *)

Definition findByEmailAndRequestResetPasswordCode (email : string) : M () :=
  user ← findOne email;
  match user with
  | None => throw ("User not found with email: " +:+ email)
  | Some user =>
      code ← generateVerificationCode RESET_PASSWORD_CODE_LENGTH;
      requestedAt ← newDate;
      let user := set_resetPasswordCode
                    (Some {| code := code; code_requestedAt := requestedAt |})
                    user in
      let user := set_resetPasswordToken None user in
      let user := set_resetPasswordCodeGuessCount 0 user in
      save user;;
      mret ()
  end.

(** *** findByEmailAndRequestResetPasswordToken *)

Definition findByEmailAndRequestResetPasswordToken
    (email : string) (code_ : option string) : M string :=
  match code_ with
  | None => throw "No code received"
  | Some code_ =>
    user ← findOne email;
    match user with
    | None => throw ("No user with email " +:+ email +:+ " has requested code")
    | Some user =>
      match resetPasswordCode (doc_user user) with
      | None => throw ("No user with email " +:+ email +:+ " has requested code")
      | Some rc =>
        if bool_decide (RESET_PASSWORD_MAX_GUESS_COUNT
                          ≤ resetPasswordCodeGuessCount (doc_user user))
        then throw "Too many attempts to guess reset password code"
        else
          now ← newDate;
          if bool_decide (RESET_PASSWORD_CODE_TIME_PERIOD_LENGTH
                            < now - code_requestedAt rc)
          then throw "code is no longer valid"
          else
            let hashedInput := sha256 code_ in
            if bool_decide (code rc ≠ hashedInput)
            then
              let user := set_resetPasswordCodeGuessCount
                            (resetPasswordCodeGuessCount (doc_user user) + 1)
                            user in
              save user;;
              throw "Hashed codes do not match"
            else
              stamp ← newDate;
              random ← generateVerificationCode
                         RESET_PASSWORD_TOKEN_RANDOM_NUM_LENGTH;
              requestedAt ← newDate;
              let user := set_resetPasswordToken
                            (Some {| token := hashString
                                       (code rc +:+ toISOString stamp +:+ random);
                                     token_requestedAt := requestedAt |})
                            user in
              update_unset path_resetPasswordCode user;;
              user ← save user;
              match resetPasswordToken (doc_user user) with
              | Some rt => mret (token rt)
              | None => throw "TypeError: Cannot read property 'token' of undefined"
              end
      end
    end
  end.

(** *** findByEmailAndResetPassword *)

Definition findByEmailAndResetPassword
    (email : string) (token_ : option string) (password_ : string) : M User :=
  match token_ with
  | None => throw "No code received"
  | Some token_ =>
    user ← findOne email;
    match user with
    | None => throw ("No user with email " +:+ email +:+ " has requested token")
    | Some user =>
      match resetPasswordToken (doc_user user) with
      | None => throw ("No user with email " +:+ email +:+ " has requested token")
      | Some rt =>
        now ← newDate;
        if bool_decide (RESET_PASSWORD_TOKEN_TIME_PERIOD_LENGTH
                          < now - token_requestedAt rt)
        then throw "Token is no longer valid"
        else if bool_decide (token_ ≠ token rt)
        then throw "Token invalid"
        else
          let user := set_password password_ user in
          update_unset path_resetPasswordToken user;;
          user ← save user;
          mret (doc_user user)
      end
    end
  end.

End Statics.

(** ** Sequences of calls

    The calls a client can make, and the world after a sequence of them
    (whatever each call returned or threw). *)
Inductive Call :=
  | requestResetCode (email : string)
  | verifyResetCode (email : string) (code_ : option string)
  | commitNewPassword (email : string) (token_ : option string) (password_ : string)
  | login (email password_ : string).

Global Instance Call_eq_dec : EqDecision Call.
Proof. solve_decision. Defined.

Section Calls.
Context `{!Utils, !Methods}.

Definition exec (c : Call) (w : World) : World :=
  match c with
  | requestResetCode e => (findByEmailAndRequestResetPasswordCode e w).2
  | verifyResetCode e c => (findByEmailAndRequestResetPasswordToken e c w).2
  | commitNewPassword e t p => (findByEmailAndResetPassword e t p w).2
  | login e p => (findByCreds e p w).2
  end.

Definition run (cs : list Call) (w : World) : World :=
  foldl (λ w c, exec c w) w cs.

End Calls.


(** ** Vocabulary of the properties *)

(** The errors of the statics, named after the failure kinds of the
    protocol: a missing code or token is the invalid input, a missing user
    or missing pending request is not found. *)
Definition InvalidCredentials : Error :=
  {| message := "[[translation:339ca901-d88e-4e10-916a-95c54a4ed932]]" |}.
Definition UserNotFound (e : string) : Error :=
  {| message := "User not found with email: " +:+ e |}.
Definition InvalidInput : Error :=
  {| message := "No code received" |}.
Definition CodeNotFound (e : string) : Error :=
  {| message := "No user with email " +:+ e +:+ " has requested code" |}.
Definition RateLimited : Error :=
  {| message := "Too many attempts to guess reset password code" |}.
Definition CodeExpired : Error :=
  {| message := "code is no longer valid" |}.
Definition CodeMismatch : Error :=
  {| message := "Hashed codes do not match" |}.
Definition TokenNotFound (e : string) : Error :=
  {| message := "No user with email " +:+ e +:+ " has requested token" |}.
Definition TokenExpired : Error :=
  {| message := "Token is no longer valid" |}.
Definition TokenMismatch : Error :=
  {| message := "Token invalid" |}.

(** The stored record of [u] after a code was issued, after a wrong guess
    was counted, after a token was issued and after the password was
    committed. *)
Definition code_issued (u : User) (hash : string) (at_ : Z) : User :=
  {| email := email u; password := password u;
     resetPasswordCode := Some {| code := hash; code_requestedAt := at_ |};
     resetPasswordToken := None;
     resetPasswordCodeGuessCount := 0 |}.

Definition guess_counted (u : User) : User :=
  {| email := email u; password := password u;
     resetPasswordCode := resetPasswordCode u;
     resetPasswordToken := resetPasswordToken u;
     resetPasswordCodeGuessCount := resetPasswordCodeGuessCount u + 1 |}.

Definition token_issued (u : User) (tok : string) (at_ : Z) : User :=
  {| email := email u; password := password u;
     resetPasswordCode := None;
     resetPasswordToken := Some {| token := tok; token_requestedAt := at_ |};
     resetPasswordCodeGuessCount := resetPasswordCodeGuessCount u |}.

Definition password_committed (u : User) (hash : string) : User :=
  {| email := email u; password := hash;
     resetPasswordCode := resetPasswordCode u;
     resetPasswordToken := None;
     resetPasswordCodeGuessCount := resetPasswordCodeGuessCount u |}.

(** The world with collection [us], after [reads] more clock reads and
    [draws] more random draws. *)
Definition advance (reads draws : nat) (us : list User) (w : World) : World :=
  {| users := us; clock := clock w;
     clock_reads := (reads + clock_reads w)%nat;
     rng := rng w; rng_draws := (rng_draws w + draws)%nat |}.

(** At most one of the pending code and the pending token is present. *)
Definition at_most_one_pending (u : User) : Prop :=
  ¬ (is_Some (resetPasswordCode u) ∧ is_Some (resetPasswordToken u)).

Global Instance at_most_one_pending_dec u : Decision (at_most_one_pending u).
Proof. unfold at_most_one_pending. apply _. Defined.

(** The guess counts of the collection, record by record. *)
Definition guess_counts (w : World) : list Z :=
  resetPasswordCodeGuessCount <$> users w.

(** The user found for [e] has a pending code and has used up its
    guesses. *)
Definition locked_out `{!Utils} (e : string) (w : World) : Prop :=
  ∃ i u, find_user e (users w) = Some (i, u)
         ∧ is_Some (resetPasswordCode u)
         ∧ RESET_PASSWORD_MAX_GUESS_COUNT ≤ resetPasswordCodeGuessCount u.

(** How one call can rewrite the stored record of the user it finds: a
    request issues a code, a verification below the guess limit counts a
    wrong guess or issues a token, a commit sets the password. *)
Inductive stored_step `{!Utils} : Call → User → User → Prop :=
  | step_code_issued e u hash at_ :
      email u = e →
      stored_step (requestResetCode e) u (code_issued u hash at_)
  | step_guess_counted e c u :
      email u = e → is_Some (resetPasswordCode u) →
      resetPasswordCodeGuessCount u < RESET_PASSWORD_MAX_GUESS_COUNT →
      stored_step (verifyResetCode e c) u (guess_counted u)
  | step_token_issued e c u tok at_ :
      email u = e → is_Some (resetPasswordCode u) →
      resetPasswordCodeGuessCount u < RESET_PASSWORD_MAX_GUESS_COUNT →
      stored_step (verifyResetCode e c) u (token_issued u tok at_)
  | step_password_committed e t p u hash :
      email u = e →
      stored_step (commitNewPassword e t p) u (password_committed u hash).

(** The token verifier as the design describes it, to compare the commit
    with: invalid input if the token is absent; not found if the user is
    absent or has no pending token; expired if now minus the token's
    requestedAt exceeds the token TTL; mismatch if the token is not the
    stored one.  It takes the record found for the
    email and gives the failure, or [None] when the token is accepted. *)
Inductive TokenFailure :=
  | TokenInput_absent
  | TokenRequest_absent
  | TokenTTL_exceeded
  | TokenValue_differs.

Definition TokenVerifier (tokenTTL now : Z)
    (found : option User) (token_ : option string) : option TokenFailure :=
  match token_ with
  | None => Some TokenInput_absent
  | Some t =>
      match found with
      | None => Some TokenRequest_absent
      | Some u =>
          match resetPasswordToken u with
          | None => Some TokenRequest_absent
          | Some rt =>
              if bool_decide (tokenTTL < now - token_requestedAt rt)
              then Some TokenTTL_exceeded
              else if bool_decide (t ≠ token rt) then Some TokenValue_differs
              else None
          end
      end
  end.

(** The error [findByEmailAndResetPassword] throws for each of them. *)
Definition commit_error (e : string) (f : TokenFailure) : Error :=
  match f with
  | TokenInput_absent => InvalidInput
  | TokenRequest_absent => TokenNotFound e
  | TokenTTL_exceeded => TokenExpired
  | TokenValue_differs => TokenMismatch
  end.

(** ** A concrete configuration

    Eight digit codes, three guesses, five minutes for a code and for a
    token, thirty random digits in a token; transparent stand-ins for the
    hash functions; a clock that starts at 1000000 ms and advances one
    millisecond per read unless said otherwise. *)
Module Demo.

Definition utils : Utils :=
  {| RESET_PASSWORD_CODE_LENGTH := 8;
     RESET_PASSWORD_MAX_GUESS_COUNT := 3;
     RESET_PASSWORD_CODE_TIME_PERIOD_LENGTH := 300000;
     RESET_PASSWORD_TOKEN_TIME_PERIOD_LENGTH := 300000;
     RESET_PASSWORD_TOKEN_RANDOM_NUM_LENGTH := 30 |}.

Definition methods : Methods :=
  {| PublicUser := string;
     sha256 := λ s, "sha256:" +:+ s;
     hashString := λ s, "hash:" +:+ s;
     bcrypt_hash := λ s, "bcrypt:" +:+ s;
     bcrypt_compare := λ plain hash, bool_decide (hash = "bcrypt:" +:+ plain);
     toISOString := λ t, pretty t;
     getPublic := email;
     AuthTokens_generate := λ id nonce,
       "session:" +:+ pretty id +:+ ":" +:+ pretty nonce |}.

Definition t0 : Z := 1000000.

Definition user (e : string) (rc : option ResetPasswordCode)
    (rt : option ResetPasswordToken) (guesses : Z) : User :=
  {| email := e; password := "bcrypt:correct";
     resetPasswordCode := rc; resetPasswordToken := rt;
     resetPasswordCodeGuessCount := guesses |}.

Definition world (us : list User) (now : Z) : World :=
  {| users := us; clock := λ k, now + Z.of_nat k; clock_reads := 0;
     rng := λ k, k; rng_draws := 0 |}.

(** The code "12345678" issued at [t0]. *)
Definition pending : option ResetPasswordCode :=
  Some {| code := "sha256:12345678"; code_requestedAt := t0 |}.

End Demo.

(** ** Registration *)

(** What [register] needs from outside the statics file: the registration
    info (of which it reads [password] and [password2]), [Model.create] and
    the user method [setVerificationCode]. *)
Class Registration := {
  UserRegisterInfo : Type;
  info_password : UserRegisterInfo → string;
  info_password2 : UserRegisterInfo → string;
  create : UserRegisterInfo → M Document;
  setVerificationCode : Document → M Document;
}.

Section Register.
Context `{!Registration}.

Definition register (info : UserRegisterInfo) : M Document :=
  if bool_decide (info_password info ≠ info_password2 info)
  then throw "[[translation:faceb97a-63cc-48e1-9b5b-7917546711b2]]"
  else
    user ← create info;
    user ← setVerificationCode user;
    mret user.

End Register.

Definition PasswordsDiffer : Error :=
  {| message := "[[translation:faceb97a-63cc-48e1-9b5b-7917546711b2]]" |}.

(** ** More vocabulary *)

(** The email a call looks the user up by. *)
Definition call_email (c : Call) : string :=
  match c with
  | requestResetCode e => e
  | verifyResetCode e _ => e
  | commitNewPassword e _ _ => e
  | login e _ => JS.trim (JS.toLowerCase e)
  end.

(** The stored record of [u] with another guess count. *)
Definition with_guess_count (u : User) (n : Z) : User :=
  {| email := email u; password := password u;
     resetPasswordCode := resetPasswordCode u;
     resetPasswordToken := resetPasswordToken u;
     resetPasswordCodeGuessCount := n |}.

(** The guess count is between 0 and the limit. *)
Definition guess_count_in_range `{!Utils} (u : User) : Prop :=
  0 ≤ resetPasswordCodeGuessCount u ≤ RESET_PASSWORD_MAX_GUESS_COUNT.

(** Whatever code is pending for [e] is older than the code period at the
    next reading of the clock. *)
Definition code_out_of_date `{!Utils} (e : string) (w : World) : Prop :=
  ∀ i u rc,
    find_user e (users w) = Some (i, u) →
    resetPasswordCode u = Some rc →
    RESET_PASSWORD_CODE_TIME_PERIOD_LENGTH
      < clock w (clock_reads w) - code_requestedAt rc.

(** A string that does not begin with white space. *)
Definition starts_clean (s : string) : Prop :=
  match s with
  | EmptyString => True
  | String c _ => JS.is_space c = false
  end.

(** ** The statics of the Articles model

    [findArticleByUrl], [findArticleByKey] and [webSearch], against the
    articles and article sources collections.  The [console.log] calls of
    [webSearch] are left out. *)
Module Articles.

(** What [scrapeArticle] gives. *)
Record ScrapeData := {
  scraped_title : string;
  scraped_paragraphs : list string;
  scraped_extract : string;
}.

(** One result of [Google.search]. *)
Record SearchItem := {
  link : string;
  snippet : string;
  item_title : string;
}.

(** The fields an article is built with. *)
Record Article := {
  title : string;
  paragraphs : list string;
  extract : string;
  sourceId : nat;
  key : string;
}.

(** The article source documents; the statics only look at their
    [identifier] and their [_id], for which the position in the collection
    stands. *)
Class Sources := {
  ArticleSource : Type;
  identifier : ArticleSource → string;
}.

Section Model.
Context `{!Sources}.

(** The two collections, and how many times the scraper has been run. *)
Record Store := {
  articles : list Article;
  article_sources : list ArticleSource;
  scrapes : nat;
}.

(** The collaborators outside the statics file: the statics
    [getIdentifier] and [getArticleKey] of the article sources, the
    scraper, the article method [getSource], which works on the article it
    is called on, and the search.  Each either throws or returns, and none
    writes to the two collections. *)
Class Services := {
  getIdentifier : string → Error + string;
  getArticleKey : string → Error + string;
  scrapeArticle : string → string → Error + ScrapeData;
  getSource : list ArticleSource → Article → Error + Article;
  Google_search : string → Error + list SearchItem;
}.

(** [ArticlePreview]; [sources[i]] and [keys[i]] are [None] where the
    index finds nothing. *)
Record ArticlePreview := {
  url : string;
  preview_snippet : string;
  preview_title : string;
  preview_source : option (nat * ArticleSource);
  preview_key : option string;
}.

Definition A (X : Type) : Type := Store → (Error + X) * Store.

Global Instance A_ret : MRet A := λ X x s, (inr x, s).
Global Instance A_bind : MBind A := λ X Y f m s,
  match m s with
  | (inl e, s') => (inl e, s')
  | (inr x, s') => f x s'
  end.

Definition fail {X} (msg : string) : A X := λ s, (inl {| message := msg |}, s).

(** The outcome of a collaborator, inside a static. *)
Definition call {X} (r : Error + X) : A X := λ s, (r, s).

Definition find_source (id : string) (l : list ArticleSource)
  : option (nat * ArticleSource) :=
  list_find (λ src, identifier src = id) l.

Definition find_article (k : string) (sid : nat) (l : list Article)
  : option (nat * Article) :=
  list_find (λ a, key a = k ∧ sourceId a = sid) l.

(** [ArticleSources.findOne({ identifier })] *)
Definition ArticleSources_findOne (id : string)
  : A (option (nat * ArticleSource)) := λ s,
  (inr (find_source id (article_sources s)), s).

(** [this.findOne({ key, sourceId })] *)
Definition findOne (k : string) (sid : nat) : A (option Article) := λ s,
  (inr (snd <$> find_article k sid (articles s)), s).

(** [article.save()] of a new article. *)
Definition save (a : Article) : A () := λ s,
  (inr (), {| articles := articles s ++ [a];
              article_sources := article_sources s;
              scrapes := scrapes s |}).

Section Statics.
Context `{!Services}.

(** [new ScraperFactory(identifier, key).scrapeArticle()] *)
Definition scrape (id k : string) : A ScrapeData := λ s,
  (scrapeArticle id k,
   {| articles := articles s; article_sources := article_sources s;
      scrapes := S (scrapes s) |}).

(** [upsert] is [undefined], [true] or [false]. *)
Definition findArticleByKey (identifier_ key_ : string) (upsert : option bool)
  : A Article :=
  source ← ArticleSources_findOne identifier_;
  match source with
  | None => fail ("No article source found with identifier " +:+ identifier_)
  | Some source =>
      doc ← findOne key_ source.1;
      match doc with
      | Some doc => mret doc
      | None =>
          scrapeData ← scrape identifier_ key_;
          let article := {| title := scraped_title scrapeData;
                            paragraphs := scraped_paragraphs scrapeData;
                            extract := scraped_extract scrapeData;
                            sourceId := source.1;
                            key := key_ |} in
          article ← (λ s, call (getSource (article_sources s) article) s);
          if bool_decide (upsert = Some true)
          then save article;; mret article
          else mret article
      end
  end.

Definition findArticleByUrl (decodedURL : string) (upsert : option bool)
  : A Article :=
  identifier_ ← call (getIdentifier decodedURL);
  key_ ← call (getArticleKey decodedURL);
  source ← ArticleSources_findOne identifier_;
  findArticleByKey identifier_ key_ upsert.

(** [l.filter((x, i) => keep(i, x))], counting from [i]. *)
Fixpoint filter_from {X} (keep : nat → X → bool) (i : nat) (l : list X)
  : list X :=
  match l with
  | [] => []
  | x :: l =>
      if keep i x then x :: filter_from keep (S i) l
      else filter_from keep (S i) l
  end.

(** [!!article && article.paragraphs.join("").trim().length > 0] *)
Definition has_text (article : option Article) : bool :=
  match article with
  | None => false
  | Some a =>
      bool_decide
        (0 < String.length (JS.trim (String.concat "" (paragraphs a))))%nat
  end.

(** The two [Promise.all] are taken in the order of the list. *)
Definition webSearch (query : string) : A (list ArticlePreview) :=
  items ← call (Google_search query);
  let urls := link <$> items in
  identifiers ← mapM (λ u, call (getIdentifier u)) urls;
  keys ← mapM (λ u, call (getArticleKey u)) urls;
  sources ← mapM ArticleSources_findOne identifiers;
  let returnFormattedItems :=
    imap (λ i item, {| url := link item;
                       preview_snippet := snippet item;
                       preview_title := item_title item;
                       preview_source := mjoin (sources !! i);
                       preview_key := keys !! i |}) items in
  scrapedArticles ←
    mapM (λ item, findArticleByUrl (url item) None) returnFormattedItems;
  mret (filter_from (λ i _, has_text (scrapedArticles !! i)) 0
          returnFormattedItems).

End Statics.
End Model.

Definition NoSource (id : string) : Error :=
  {| message := "No article source found with identifier " +:+ id |}.

End Articles.

(** ** Concrete collaborators for registration and for the articles

    Registration stores the user with the hashed password and sets no
    verification code.  Article urls are an identifier of five letters, a
    slash and the key; sources are named by their identifier; the scraper
    finds one paragraph of text, or a blank one for the key "blank"; a
    search for "news" has three results, the last one from a source that is
    not stored. *)
Module Demo2.

Definition registration : Registration :=
  {| UserRegisterInfo := string * string * string;
     info_password := λ info, info.1.2;
     info_password2 := λ info, info.2;
     create := λ info w,
       let u := {| email := info.1.1; password := "bcrypt:" +:+ info.1.2;
                   resetPasswordCode := None; resetPasswordToken := None;
                   resetPasswordCodeGuessCount := 0 |} in
       (inr {| doc_id := length (users w); doc_user := u; doc_modified := [] |},
        with_users (λ us, us ++ [u]) w);
     setVerificationCode := λ d w, (inr d, w) |}.

Definition sources : Articles.Sources :=
  {| Articles.ArticleSource := string; Articles.identifier := λ s, s |}.

Definition services : @Articles.Services sources :=
  {| Articles.getIdentifier := λ u, inr (String.substring 0 5 u);
     Articles.getArticleKey := λ u,
       inr (String.substring 6 (String.length u - 6) u);
     Articles.scrapeArticle := λ id k,
       inr {| Articles.scraped_title := k;
              Articles.scraped_paragraphs :=
                if bool_decide (k = "blank") then ["  "; " "]
                else ["text of " +:+ k];
              Articles.scraped_extract := "" |};
     Articles.getSource := λ _ a, inr a;
     Articles.Google_search := λ q,
       if bool_decide (q = "news")
       then inr [ {| Articles.link := "visir/first"; Articles.snippet := "one";
                     Articles.item_title := "First" |};
                  {| Articles.link := "visir/blank"; Articles.snippet := "two";
                     Articles.item_title := "Blank" |};
                  {| Articles.link := "ruvis/third"; Articles.snippet := "three";
                     Articles.item_title := "Third" |} ]
       else inr [ {| Articles.link := "visir/first"; Articles.snippet := "one";
                     Articles.item_title := "First" |};
                  {| Articles.link := "visir/blank"; Articles.snippet := "two";
                     Articles.item_title := "Blank" |};
                  {| Articles.link := "mblis/third"; Articles.snippet := "three";
                     Articles.item_title := "Third" |} ] |}.

Definition store : @Articles.Store sources :=
  @Articles.Build_Store sources [] ["visir"; "mblis"] 0.

End Demo2.
(** ** Basic facts about the store *)

Section Store.

Implicit Types (us : list User) (u : User) (e : string) (i j : nat).

Lemma find_user_Some e us i u :
  find_user e us = Some (i, u) → us !! i = Some u ∧ email u = e.
Proof.
  unfold find_user. intros (Hi & He & _)%list_find_Some. done.
Qed.

Lemma find_user_None e us :
  find_user e us = None ↔ ∀ u, u ∈ us → email u ≠ e.
Proof.
  unfold find_user. rewrite list_find_None, Forall_forall. done.
Qed.

Lemma alter_lookup (f : User → User) us i u :
  us !! i = Some u → alter f i us = <[i := f u]> us.
Proof.
  revert i. induction us as [|x us IH]; intros [|i] Hi; simplify_eq/=; try done.
  f_equal. by apply IH.
Qed.

(** Looking a user up after one stored record was replaced by a record
    with the same email finds the same position. *)
Lemma find_user_insert_email e us j u0 u' :
  us !! j = Some u0 → email u' = email u0 →
  find_user e (<[j := u']> us)
  = (λ '(i, u), (i, if decide (i = j) then u' else u)) <$> find_user e us.
Proof.
  unfold find_user. revert j.
  induction us as [|x us IH]; intros j Hj He; [done|].
  destruct j as [|j]; simplify_eq/=.
  - rewrite He. destruct (decide (email u0 = e)); simpl; [done|].
    destruct (list_find _ us) as [[i u]|]; simpl; done.
  - destruct (decide (email x = e)); simpl; [done|].
    rewrite (IH _ Hj He). destruct (list_find _ us) as [[i u]|]; simpl; [|done].
    destruct (decide (i = j)); [rewrite decide_True by lia|rewrite decide_False by lia];
      done.
Qed.

Lemma find_user_insert e us i u u' :
  find_user e us = Some (i, u) → email u' = email u →
  find_user e (<[i := u']> us) = Some (i, u').
Proof.
  intros Hf He. pose proof (find_user_Some _ _ _ _ Hf) as [Hi _].
  rewrite (find_user_insert_email e us i u u' Hi He), Hf. simpl.
  by rewrite decide_True.
Qed.

Lemma find_user_insert_other e us i u j u0 u' :
  find_user e us = Some (i, u) → us !! j = Some u0 → email u' = email u0 →
  j ≠ i → find_user e (<[j := u']> us) = Some (i, u).
Proof.
  intros Hf Hj He Hne.
  rewrite (find_user_insert_email e us j u0 u' Hj He), Hf. simpl.
  by rewrite decide_False.
Qed.

End Store.

(** ** What each static returns and persists *)

Section Run.
Context `{!Utils, !Methods}.

Implicit Types (w : World) (u : User) (e : string) (i : nat).

Local Ltac run :=
  unfold findByCreds, findByEmailAndRequestResetPasswordCode,
    findByEmailAndRequestResetPasswordToken, findByEmailAndResetPassword,
    mbind, M_bind, mret, M_ret, findOne, throw, newDate, draw,
    generateVerificationCode, save, update_unset, with_users; simpl.

Local Ltac paths :=
  repeat match goal with
  | |- context [bool_decide (?p ∈ ?l)] =>
      first [ rewrite (bool_decide_eq_true_2 (p ∈ l)) by set_solver
            | rewrite (bool_decide_eq_false_2 (p ∈ l)) by set_solver ]
  end.

Lemma digits_length src from len : String.length (digits src from len) = len.
Proof. revert from. induction len; intros; simpl; [done|]. by rewrite IHlen. Qed.

Lemma request_code_run e w :
  findByEmailAndRequestResetPasswordCode e w =
  match find_user e (users w) with
  | None => (inl (UserNotFound e), w)
  | Some (i, u) =>
      (inr (),
       advance 1 RESET_PASSWORD_CODE_LENGTH
         (<[i := code_issued u
                   (sha256 (digits (rng w) (rng_draws w) RESET_PASSWORD_CODE_LENGTH))
                   (clock w (clock_reads w))]> (users w)) w)
  end.
Proof.
  run. destruct (find_user e (users w)) as [[i u]|] eqn:Hf; simpl; [|done].
  apply find_user_Some in Hf as [Hi _].
  unfold advance. do 2 f_equal. rewrite (alter_lookup _ _ _ _ Hi).
  f_equal; unfold write_modified, preSave, code_issued; simpl; paths; done.
Qed.

Lemma verify_code_run e c w :
  findByEmailAndRequestResetPasswordToken e c w =
  match c with
  | None => (inl InvalidInput, w)
  | Some c =>
    match find_user e (users w) with
    | None => (inl (CodeNotFound e), w)
    | Some (i, u) =>
      match resetPasswordCode u with
      | None => (inl (CodeNotFound e), w)
      | Some rc =>
        if bool_decide (RESET_PASSWORD_MAX_GUESS_COUNT
                          ≤ resetPasswordCodeGuessCount u)
        then (inl RateLimited, w)
        else if bool_decide (RESET_PASSWORD_CODE_TIME_PERIOD_LENGTH
                               < clock w (clock_reads w) - code_requestedAt rc)
        then (inl CodeExpired, advance 1 0 (users w) w)
        else if bool_decide (code rc ≠ sha256 c)
        then (inl CodeMismatch,
              advance 1 0 (<[i := guess_counted u]> (users w)) w)
        else
          let tok :=
            hashString (code rc +:+ toISOString (clock w (S (clock_reads w)))
                        +:+ digits (rng w) (rng_draws w)
                              RESET_PASSWORD_TOKEN_RANDOM_NUM_LENGTH) in
          (inr tok,
           advance 3 RESET_PASSWORD_TOKEN_RANDOM_NUM_LENGTH
             (<[i := token_issued u tok (clock w (S (S (clock_reads w))))]>
                (users w)) w)
      end
    end
  end.
Proof.
  run. destruct c as [c|]; [|done]. simpl.
  destruct (find_user e (users w)) as [[i u]|] eqn:Hf; simpl; [|done].
  apply find_user_Some in Hf as [Hi _].
  destruct (resetPasswordCode u) as [rc|] eqn:Hrc; simpl; [|done].
  case_bool_decide; simpl; [done|].
  case_bool_decide; simpl.
  { unfold advance. do 2 f_equal. lia. }
  case_bool_decide; simpl.
  - unfold advance. do 2 f_equal; [|lia].
    rewrite (alter_lookup _ _ _ _ Hi).
    f_equal; unfold write_modified, preSave, guess_counted; simpl; paths; done.
  - unfold advance. do 2 f_equal.
    rewrite list_alter_alter_eq, (alter_lookup _ _ _ _ Hi).
    f_equal; unfold write_modified, preSave, token_issued; simpl; paths; done.
Qed.

Lemma commit_run e t p w :
  findByEmailAndResetPassword e t p w =
  match t with
  | None => (inl InvalidInput, w)
  | Some t =>
    match find_user e (users w) with
    | None => (inl (TokenNotFound e), w)
    | Some (i, u) =>
      match resetPasswordToken u with
      | None => (inl (TokenNotFound e), w)
      | Some rt =>
        if bool_decide (RESET_PASSWORD_TOKEN_TIME_PERIOD_LENGTH
                          < clock w (clock_reads w) - token_requestedAt rt)
        then (inl TokenExpired, advance 1 0 (users w) w)
        else if bool_decide (t ≠ token rt)
        then (inl TokenMismatch, advance 1 0 (users w) w)
        else
          (inr {| email := email u; password := bcrypt_hash p;
                  resetPasswordCode := resetPasswordCode u;
                  resetPasswordToken := resetPasswordToken u;
                  resetPasswordCodeGuessCount := resetPasswordCodeGuessCount u |},
           advance 1 0
             (<[i := password_committed u (bcrypt_hash p)]> (users w)) w)
      end
    end
  end.
Proof.
  run. destruct t as [t|]; [|done]. simpl.
  destruct (find_user e (users w)) as [[i u]|] eqn:Hf; simpl; [|done].
  apply find_user_Some in Hf as [Hi _].
  destruct (resetPasswordToken u) as [rt|] eqn:Hrt; simpl; [|done].
  case_bool_decide; simpl.
  { unfold advance. do 2 f_equal. lia. }
  case_bool_decide; simpl.
  { unfold advance. do 2 f_equal. lia. }
  unfold advance. f_equal.
  { unfold preSave. simpl. paths. by rewrite Hrt. }
  f_equal; [|lia].
  rewrite list_alter_alter_eq, (alter_lookup _ _ _ _ Hi).
  f_equal; unfold write_modified, preSave, password_committed; simpl; paths; done.
Qed.

Lemma login_run e p w :
  findByCreds e p w =
  match find_user (JS.trim (JS.toLowerCase e)) (users w) with
  | None => (inl InvalidCredentials, w)
  | Some (i, u) =>
      if bcrypt_compare p (password u)
      then (inr {| session_user := getPublic u;
                   session_token := AuthTokens_generate i (rng w (rng_draws w)) |},
            advance 0 1 (users w) w)
      else (inl InvalidCredentials, w)
  end.
Proof.
  run. destruct (find_user _ (users w)) as [[i u]|]; simpl; [|done].
  destruct (bcrypt_compare p (password u)); simpl; [|done].
  unfold advance. do 2 f_equal. lia.
Qed.

Lemma stored_step_email call u u' : stored_step call u u' → email u' = email u.
Proof. by destruct 1. Qed.

(** Every call leaves the collection as it was or rewrites the one record
    it found, by a step of the protocol. *)
Lemma exec_users call w :
  users (exec call w) = users w
  ∨ ∃ e j u u',
      find_user e (users w) = Some (j, u)
      ∧ stored_step call u u'
      ∧ users (exec call w) = <[j := u']> (users w).
Proof.
  destruct call as [e|e c|e t p|e p]; simpl.
  - rewrite request_code_run.
    destruct (find_user e (users w)) as [[j u]|] eqn:Hf; [|by left].
    right. eexists e, j, u, _. split_and!; [done| |done].
    constructor. by apply find_user_Some in Hf as [_ ?].
  - rewrite verify_code_run. destruct c as [c|]; [|by left].
    destruct (find_user e (users w)) as [[j u]|] eqn:Hf; [|by left].
    pose proof (find_user_Some _ _ _ _ Hf) as [_ He].
    destruct (resetPasswordCode u) as [rc|] eqn:Hrc; [|by left].
    repeat case_bool_decide; simpl; try by left.
    + right. eexists e, j, u, _. split_and!; [done| |done].
      constructor; [done|by rewrite Hrc|lia].
    + right. eexists e, j, u, _. split_and!; [done| |done].
      constructor; [done|by rewrite Hrc|lia].
  - rewrite commit_run. destruct t as [t|]; [|by left].
    destruct (find_user e (users w)) as [[j u]|] eqn:Hf; [|by left].
    pose proof (find_user_Some _ _ _ _ Hf) as [_ He].
    destruct (resetPasswordToken u) as [rt|] eqn:Hrt; [|by left].
    repeat case_bool_decide; simpl; try by left.
    right. eexists e, j, u, _. split_and!; [done| |done]. by constructor.
  - rewrite login_run. left.
    destruct (find_user _ (users w)) as [[j u]|]; [|done].
    by destruct (bcrypt_compare p (password u)).
Qed.

Lemma run_cons c cs w : run (c :: cs) w = run cs (exec c w).
Proof. done. Qed.

End Run.

(** ** The reset protocol and the login path *)

Section Protocol.
Context `{!Utils, !Methods}.

Implicit Types (w : World) (u : User) (e : string) (i : nat).

Local Arguments findByCreds : simpl never.
Local Arguments findByEmailAndRequestResetPasswordCode : simpl never.
Local Arguments findByEmailAndRequestResetPasswordToken : simpl never.
Local Arguments findByEmailAndResetPassword : simpl never.

(** C1.  For a user that exists and has a pending reset code, and a code
    that was submitted, [findByEmailAndRequestResetPasswordToken] returns
    (rather than throws) exactly when the [sha256] of the submitted code is
    the stored code, the age of the code at the clock reading of the call
    is at most [RESET_PASSWORD_CODE_TIME_PERIOD_LENGTH], and the guess count
    is below [RESET_PASSWORD_MAX_GUESS_COUNT]; what it returns is the token
    now stored in the user's [resetPasswordToken]. *)
Theorem verify_code_succeeds_iff e c w i u rc :
  find_user e (users w) = Some (i, u) →
  resetPasswordCode u = Some rc →
  let r := findByEmailAndRequestResetPasswordToken e (Some c) w in
  ((∃ tok, r.1 = inr tok) ↔
     sha256 c = code rc
     ∧ clock w (clock_reads w) - code_requestedAt rc
         ≤ RESET_PASSWORD_CODE_TIME_PERIOD_LENGTH
     ∧ resetPasswordCodeGuessCount u < RESET_PASSWORD_MAX_GUESS_COUNT)
  ∧ (∀ tok, r.1 = inr tok →
       ∃ u', users r.2 !! i = Some u'
             ∧ token <$> resetPasswordToken u' = Some tok).
Proof.
  intros Hf Hrc r. subst r. rewrite verify_code_run, Hf, Hrc.
  pose proof (find_user_Some _ _ _ _ Hf) as [Hi _].
  apply lookup_lt_Some in Hi.
  repeat case_bool_decide; simpl; split.
  all: try (split; [intros [tok ?]; discriminate | intros (? & ? & ?); lia || congruence]).
  all: try (intros tok ?; discriminate).
  - split; [intros _|eauto]. split_and!; [congruence|lia..].
  - intros tok [= <-]. eexists. split; [by apply list_lookup_insert_eq|done].
Qed.

(** C2.  Whenever the code verification returns a token, a code was
    submitted for a user with a pending code whose stored value is the
    [sha256] of the submission, and the token is the user's [hashString]
    of the concatenation of that stored code, the ISO string of the clock
    reading taken for it, and a string of
    [RESET_PASSWORD_TOKEN_RANDOM_NUM_LENGTH] digits drawn afresh from the
    random source; the stored record then has that token with the next
    clock reading as [resetPasswordToken] and no [resetPasswordCode]. *)
Theorem verify_code_issues_token e c w tok :
  (findByEmailAndRequestResetPasswordToken e c w).1 = inr tok →
  ∃ i u rc submitted,
    c = Some submitted
    ∧ find_user e (users w) = Some (i, u)
    ∧ resetPasswordCode u = Some rc
    ∧ code rc = sha256 submitted
    ∧ let stamp := clock w (S (clock_reads w)) in
      let now := clock w (S (S (clock_reads w))) in
      let random :=
        digits (rng w) (rng_draws w) RESET_PASSWORD_TOKEN_RANDOM_NUM_LENGTH in
      String.length random = RESET_PASSWORD_TOKEN_RANDOM_NUM_LENGTH
      ∧ tok = hashString (code rc +:+ toISOString stamp +:+ random)
      ∧ users (findByEmailAndRequestResetPasswordToken e c w).2
        = <[i := {| email := email u; password := password u;
                    resetPasswordCode := None;
                    resetPasswordToken :=
                      Some {| token := tok; token_requestedAt := now |};
                    resetPasswordCodeGuessCount :=
                      resetPasswordCodeGuessCount u |}]> (users w).
Proof.
  rewrite verify_code_run. destruct c as [c|]; [|done].
  destruct (find_user e (users w)) as [[i u]|] eqn:Hf; [|done].
  destruct (resetPasswordCode u) as [rc|] eqn:Hrc; [|done].
  repeat case_bool_decide; simpl; try done.
  intros [= <-]. exists i, u, rc, c.
  split_and!; try done. apply digits_length.
Qed.

(** C8.  For an email that matches a stored user,
    [findByEmailAndRequestResetPasswordCode] returns, and the stored record
    of that user then has guess count 0, no [resetPasswordToken], and as
    [resetPasswordCode] the [sha256] of a code of
    [RESET_PASSWORD_CODE_LENGTH] digits drawn afresh from the random source
    together with the clock reading of the call; nothing else changes in
    the collection. *)
Theorem request_code_issues_code e w i u :
  find_user e (users w) = Some (i, u) →
  let plain := digits (rng w) (rng_draws w) RESET_PASSWORD_CODE_LENGTH in
  let r := findByEmailAndRequestResetPasswordCode e w in
  String.length plain = RESET_PASSWORD_CODE_LENGTH
  ∧ r.1 = inr ()
  ∧ users r.2
    = <[i := {| email := email u; password := password u;
                resetPasswordCode :=
                  Some {| code := sha256 plain;
                          code_requestedAt := clock w (clock_reads w) |};
                resetPasswordToken := None;
                resetPasswordCodeGuessCount := 0 |}]> (users w).
Proof.
  intros Hf plain r. subst r plain. rewrite request_code_run, Hf.
  split_and!; try done. apply digits_length.
Qed.

(** C9.  [findByCreds] looks the user up by the lower-cased, trimmed
    email.  When no user is stored under it, and when one is but the
    password does not compare equal to the stored hash, it throws the same
    error and leaves the world as it was; otherwise it returns the user's
    public view with a session token generated for the user's id. *)
Theorem login_outcomes e p w :
  match find_user (JS.trim (JS.toLowerCase e)) (users w) with
  | None => findByCreds e p w = (inl InvalidCredentials, w)
  | Some (i, u) =>
      if bcrypt_compare p (password u)
      then (findByCreds e p w).1
           = inr {| session_user := getPublic u;
                    session_token :=
                      AuthTokens_generate i (rng w (rng_draws w)) |}
      else findByCreds e p w = (inl InvalidCredentials, w)
  end.
Proof.
  rewrite login_run.
  destruct (find_user _ (users w)) as [[i u]|]; [|done].
  by destruct (bcrypt_compare p (password u)).
Qed.

(** C3.  [findByEmailAndResetPassword] decides as the token verifier of
    the design does, on the first clock reading of the call: where the
    verifier reports a failure it throws the error of that failure and the
    collection is as before; where the verifier accepts, it returns, the
    stored password is the [bcrypt_hash] of the new password and
    [resetPasswordToken] is gone, and any later call for that email with a
    token on a world with this collection throws the not-found error. *)
Theorem commit_follows_token_verifier e t p w :
  let r := findByEmailAndResetPassword e t p w in
  match TokenVerifier RESET_PASSWORD_TOKEN_TIME_PERIOD_LENGTH
          (clock w (clock_reads w)) (snd <$> find_user e (users w)) t with
  | Some failure =>
      r.1 = inl (commit_error e failure) ∧ users r.2 = users w
  | None =>
      ∃ i u,
        find_user e (users w) = Some (i, u)
        ∧ (∃ returned, r.1 = inr returned)
        ∧ users r.2
          = <[i := {| email := email u; password := bcrypt_hash p;
                      resetPasswordCode := resetPasswordCode u;
                      resetPasswordToken := None;
                      resetPasswordCodeGuessCount :=
                        resetPasswordCodeGuessCount u |}]> (users w)
        ∧ ∀ w' t' p',
            users w' = users r.2 →
            findByEmailAndResetPassword e (Some t') p' w'
            = (inl (TokenNotFound e), w')
  end.
Proof.
  intros r. subst r. rewrite commit_run. unfold TokenVerifier.
  destruct t as [t|]; [|done].
  destruct (find_user e (users w)) as [[i u]|] eqn:Hf; simpl; [|done].
  destruct (resetPasswordToken u) as [rt|] eqn:Hrt; [|done].
  repeat case_bool_decide; simpl; try done.
  exists i, u. split_and!; eauto.
  intros w' t' p' Hw'. rewrite commit_run, Hw'.
  erewrite find_user_insert by done. done.
Qed.

(** C4, as the statics have it.  When the pending code is older than
    [RESET_PASSWORD_CODE_TIME_PERIOD_LENGTH] at the clock reading of the
    call, a submitted code, correct or not, is rejected and the collection
    stays as it was: with the expiry error when the guess count is below
    [RESET_PASSWORD_MAX_GUESS_COUNT], and with the too-many-attempts error
    otherwise, since the guess limit is checked first. *)
Theorem expired_code_rejected e c w i u rc :
  find_user e (users w) = Some (i, u) →
  resetPasswordCode u = Some rc →
  RESET_PASSWORD_CODE_TIME_PERIOD_LENGTH
    < clock w (clock_reads w) - code_requestedAt rc →
  let r := findByEmailAndRequestResetPasswordToken e (Some c) w in
  (resetPasswordCodeGuessCount u < RESET_PASSWORD_MAX_GUESS_COUNT →
     r.1 = inl CodeExpired)
  ∧ (RESET_PASSWORD_MAX_GUESS_COUNT ≤ resetPasswordCodeGuessCount u →
       r.1 = inl RateLimited)
  ∧ users r.2 = users w.
Proof.
  intros Hf Hrc Hold r. subst r. rewrite verify_code_run, Hf, Hrc.
  repeat case_bool_decide; simpl; split_and!; intros; try done; lia.
Qed.

Lemma locked_out_rejected e c w :
  locked_out e w →
  findByEmailAndRequestResetPasswordToken e (Some c) w = (inl RateLimited, w).
Proof.
  intros (i & u & Hf & [rc Hrc] & Hmax).
  rewrite verify_code_run, Hf, Hrc. by rewrite bool_decide_eq_true_2.
Qed.

(** The wrong guess that brings the count to the limit locks the user
    out. *)
Lemma wrong_guess_locks_out e c w i u :
  find_user e (users w) = Some (i, u) →
  (findByEmailAndRequestResetPasswordToken e c w).1 = inl CodeMismatch →
  resetPasswordCodeGuessCount u + 1 = RESET_PASSWORD_MAX_GUESS_COUNT →
  locked_out e (findByEmailAndRequestResetPasswordToken e c w).2.
Proof.
  intros Hf. rewrite verify_code_run, Hf. destruct c as [c|]; [|done].
  destruct (resetPasswordCode u) as [rc|] eqn:Hrc; [|done].
  repeat case_bool_decide; simpl; try done.
  intros _ Hmax. exists i, (guess_counted u).
  split; [by apply (find_user_insert _ _ _ u)|]. simpl.
  split; [by rewrite Hrc|lia].
Qed.

Lemma locked_out_exec e call w :
  locked_out e w → call ≠ requestResetCode e → locked_out e (exec call w).
Proof.
  intros (i & u & Hf & Hrc & Hmax) Hcall. unfold locked_out.
  destruct (exec_users call w) as [->|(e' & j & u0 & u' & Hf' & Hstep & ->)];
    [by eauto|].
  pose proof (find_user_Some _ _ _ _ Hf') as [Hj He'].
  pose proof (stored_step_email _ _ _ Hstep) as Hemail.
  destruct (decide (e' = e)) as [->|Hne].
  - assert (j = i ∧ u0 = u) as [-> ->] by (split; congruence).
    exists i, u'. split; [by apply (find_user_insert _ _ _ u)|].
    destruct Hstep; simpl in *; try done; try lia. congruence.
  - exists i, u. split; [|done].
    apply (find_user_insert_other _ _ _ _ _ u0); try done.
    intros ->. apply find_user_Some in Hf as [Hi He]. congruence.
Qed.

(** C5.  Once the user found for an email has a pending code and a guess
    count of at least [RESET_PASSWORD_MAX_GUESS_COUNT], then after any
    sequence of calls that issues no new code for that email, and on any
    world with the resulting collection whatever its clock reads, every
    code submitted for that email, the correct one included, is rejected
    with the too-many-attempts error and changes nothing; a new code
    request for the email puts the count back to 0, which ends the lockout
    when the limit is positive. *)
Theorem lockout_persists e w cs :
  locked_out e w →
  Forall (λ call, call ≠ requestResetCode e) cs →
  (∀ w' c,
     users w' = users (run cs w) →
     findByEmailAndRequestResetPasswordToken e (Some c) w' = (inl RateLimited, w'))
  ∧ (∃ i u,
       find_user e (users (exec (requestResetCode e) (run cs w))) = Some (i, u)
       ∧ resetPasswordCodeGuessCount u = 0)
  ∧ (0 < RESET_PASSWORD_MAX_GUESS_COUNT →
       ¬ locked_out e (exec (requestResetCode e) (run cs w))).
Proof.
  intros Hlock Hcs.
  assert (locked_out e (run cs w)) as Hrun.
  { revert w Hlock. induction Hcs as [|call cs Hcall _ IH]; intros w Hlock; [done|].
    rewrite run_cons. by apply IH, locked_out_exec. }
  assert (∃ i u,
       find_user e (users (exec (requestResetCode e) (run cs w))) = Some (i, u)
       ∧ resetPasswordCodeGuessCount u = 0) as Hzero.
  { destruct Hrun as (i & u & Hf & _). simpl.
    rewrite request_code_run, Hf. simpl. eexists i, _.
    split; [by apply (find_user_insert _ _ _ u)|done]. }
  split_and!; [|done|].
  - intros w' c Hw'. apply locked_out_rejected.
    destruct Hrun as (i & u & Hf & Hrest). exists i, u. by rewrite Hw'.
  - intros Hpos (i & u & Hf & _ & Hmax).
    destruct Hzero as (i' & u' & Hf' & Hcount). simplify_eq. lia.
Qed.

(** C6, as the statics have it.  A code verification that fails with the
    mismatch error adds exactly 1 to the guess count of the user it found
    and changes no other count; a code verification with any other outcome,
    a password commit and a login leave every guess count as it was; a code
    request sets the count of the user it finds to 0 and changes no other
    count. *)
Theorem guess_count_changes w :
  (∀ e c,
     let r := findByEmailAndRequestResetPasswordToken e c w in
     if decide (r.1 = inl CodeMismatch)
     then ∃ i u, find_user e (users w) = Some (i, u)
                 ∧ guess_counts r.2
                   = <[i := resetPasswordCodeGuessCount u + 1]> (guess_counts w)
     else guess_counts r.2 = guess_counts w)
  ∧ (∀ e t p,
       guess_counts (findByEmailAndResetPassword e t p w).2 = guess_counts w)
  ∧ (∀ e p, guess_counts (findByCreds e p w).2 = guess_counts w)
  ∧ (∀ e,
       guess_counts (findByEmailAndRequestResetPasswordCode e w).2
       = match find_user e (users w) with
         | Some (i, _) => <[i := 0]> (guess_counts w)
         | None => guess_counts w
         end).
Proof.
  unfold guess_counts. split_and!.
  - intros e c. cbv zeta. rewrite verify_code_run.
    destruct c as [c|]; [|by rewrite decide_False].
    destruct (find_user e (users w)) as [[i u]|] eqn:Hf;
      [|by rewrite decide_False].
    pose proof (find_user_Some _ _ _ _ Hf) as [Hi _].
    destruct (resetPasswordCode u) as [rc|] eqn:Hrc; [|by rewrite decide_False].
    repeat case_bool_decide; simpl; try done.
    + exists i, u. split; [done|]. by rewrite list_fmap_insert.
    + rewrite list_fmap_insert. simpl.
      apply list_insert_id. by rewrite list_lookup_fmap, Hi.
  - intros e t p. rewrite commit_run. destruct t as [t|]; [|done].
    destruct (find_user e (users w)) as [[i u]|] eqn:Hf; [|done].
    pose proof (find_user_Some _ _ _ _ Hf) as [Hi _].
    destruct (resetPasswordToken u) as [rt|]; [|done].
    repeat case_bool_decide; simpl; try done.
    rewrite list_fmap_insert. simpl.
    apply list_insert_id. by rewrite list_lookup_fmap, Hi.
  - intros e p. rewrite login_run.
    destruct (find_user _ (users w)) as [[i u]|]; [|done].
    by destruct (bcrypt_compare p (password u)).
  - intros e. rewrite request_code_run.
    destruct (find_user e (users w)) as [[i u]|]; [|done].
    simpl. by rewrite list_fmap_insert.
Qed.

Lemma stored_step_at_most_one call u u' :
  stored_step call u u' → at_most_one_pending u → at_most_one_pending u'.
Proof.
  unfold at_most_one_pending.
  destruct 1; simpl; intros Hu [Hc Ht];
    first [ by apply Hu | by destruct Hc | by destruct Ht ].
Qed.

(** C7.  From a collection in which no user has both a pending code and a
    pending token, every sequence of calls leads to such a collection;
    a successful code request leaves the user it found without a pending
    token, and a successful code verification leaves the user without a
    pending code. *)
Theorem at_most_one_pending_reachable w cs :
  Forall at_most_one_pending (users w) →
  Forall at_most_one_pending (users (run cs w))
  ∧ (∀ e, (findByEmailAndRequestResetPasswordCode e (run cs w)).1 = inr () →
       ∃ i u, find_user e
                (users (findByEmailAndRequestResetPasswordCode e (run cs w)).2)
              = Some (i, u)
              ∧ is_Some (resetPasswordCode u) ∧ resetPasswordToken u = None)
  ∧ (∀ e c tok,
       (findByEmailAndRequestResetPasswordToken e c (run cs w)).1 = inr tok →
       ∃ i u, find_user e
                (users (findByEmailAndRequestResetPasswordToken e c (run cs w)).2)
              = Some (i, u)
              ∧ resetPasswordCode u = None ∧ is_Some (resetPasswordToken u)).
Proof.
  intros Hw. split_and!.
  - revert w Hw. induction cs as [|call cs IH]; intros w Hw; [done|].
    rewrite run_cons. apply IH.
    destruct (exec_users call w) as [->|(e & j & u & u' & Hf & Hstep & ->)];
      [done|].
    apply Forall_insert; [done|].
    apply (stored_step_at_most_one _ _ _ Hstep).
    apply find_user_Some in Hf as [Hj _].
    by apply (Forall_lookup_1 _ _ _ _ Hw Hj).
  - intros e. rewrite request_code_run.
    destruct (find_user e (users (run cs w))) as [[i u]|] eqn:Hf; [|done].
    intros _. simpl. eexists i, _.
    split; [by apply (find_user_insert _ _ _ u)|]. simpl. eauto.
  - intros e c tok. rewrite verify_code_run. destruct c as [c|]; [|done].
    destruct (find_user e (users (run cs w))) as [[i u]|] eqn:Hf; [|done].
    destruct (resetPasswordCode u) as [rc|] eqn:Hrc; [|done].
    repeat case_bool_decide; simpl; try done.
    intros _. eexists i, _.
    split; [by apply (find_user_insert _ _ _ u)|]. simpl. eauto.
Qed.

(** C10, as the statics have it.  The reset statics look the user up by
    the submitted string as it is.  For a stored user and a submitted
    string that differs from the stored email at most in letter case or
    surrounding white space, and that is not itself the email of a stored
    user: the code request, the code verification of any code and the
    commit of any token throw their not-found errors and leave the world as
    it was; and when the stored email is the lower-cased, trimmed form of
    the submitted string, [findByCreds] finds a user under it and returns
    whenever the password compares equal to that user's hash. *)
Theorem reset_lookup_is_exact e w u :
  u ∈ users w →
  JS.trim (JS.toLowerCase e) = JS.trim (JS.toLowerCase (email u)) →
  (∀ u', u' ∈ users w → email u' ≠ e) →
  findByEmailAndRequestResetPasswordCode e w = (inl (UserNotFound e), w)
  ∧ (∀ c, findByEmailAndRequestResetPasswordToken e (Some c) w
          = (inl (CodeNotFound e), w))
  ∧ (∀ t p, findByEmailAndResetPassword e (Some t) p w
            = (inl (TokenNotFound e), w))
  ∧ (email u = JS.trim (JS.toLowerCase e) →
     ∃ i u0,
       find_user (email u) (users w) = Some (i, u0)
       ∧ ∀ p, bcrypt_compare p (password u0) = true →
              (findByCreds e p w).1
              = inr {| session_user := getPublic u0;
                       session_token :=
                         AuthTokens_generate i (rng w (rng_draws w)) |}).
Proof.
  intros Hu _ Hfresh.
  assert (find_user e (users w) = None) as Hnone by by apply find_user_None.
  split_and!.
  - by rewrite request_code_run, Hnone.
  - intros c. by rewrite verify_code_run, Hnone.
  - intros t p. by rewrite commit_run, Hnone.
  - intros Hnorm.
    destruct (find_user (email u) (users w)) as [[i u0]|] eqn:Hf.
    + exists i, u0. split; [done|]. intros p Hp.
      by rewrite login_run, <- Hnorm, Hf, Hp.
    + exfalso. by eapply find_user_None in Hf.
Qed.

End Protocol.

(** ** Further properties of the statics *)

Section More.
Context `{!Utils, !Methods}.

Implicit Types (w : World) (u : User) (e : string) (i j : nat).

Local Arguments findByCreds : simpl never.
Local Arguments findByEmailAndRequestResetPasswordCode : simpl never.
Local Arguments findByEmailAndRequestResetPasswordToken : simpl never.
Local Arguments findByEmailAndResetPassword : simpl never.

(** A call reads the clock forwards only, and rewrites at most the record
    found under the email it looks up. *)
Lemma exec_found call w :
  clock (exec call w) = clock w
  ∧ (clock_reads w ≤ clock_reads (exec call w))%nat
  ∧ (users (exec call w) = users w
     ∨ ∃ j u u',
         find_user (call_email call) (users w) = Some (j, u)
         ∧ stored_step call u u'
         ∧ users (exec call w) = <[j := u']> (users w)).
Proof.
  destruct call as [e|e c|e t p|e p]; simpl.
  - rewrite request_code_run.
    destruct (find_user e (users w)) as [[j u]|] eqn:Hf; simpl;
      [|by split_and!; [..|left]].
    split_and!; [done|lia|]. right. eexists j, u, _. split_and!; [done| |done].
    constructor. by apply find_user_Some in Hf as [_ ?].
  - rewrite verify_code_run. destruct c as [c|]; [|by split_and!; [..|left]].
    destruct (find_user e (users w)) as [[j u]|] eqn:Hf;
      [|by split_and!; [..|left]].
    pose proof (find_user_Some _ _ _ _ Hf) as [_ He].
    destruct (resetPasswordCode u) as [rc|] eqn:Hrc; [|by split_and!; [..|left]].
    repeat case_bool_decide; simpl; (split_and!; [done|lia|]); try by left.
    + right. eexists j, u, _. split_and!; [done| |done].
      constructor; [done|by rewrite Hrc|lia].
    + right. eexists j, u, _. split_and!; [done| |done].
      constructor; [done|by rewrite Hrc|lia].
  - rewrite commit_run. destruct t as [t|]; [|by split_and!; [..|left]].
    destruct (find_user e (users w)) as [[j u]|] eqn:Hf;
      [|by split_and!; [..|left]].
    pose proof (find_user_Some _ _ _ _ Hf) as [_ He].
    destruct (resetPasswordToken u) as [rt|] eqn:Hrt; [|by split_and!; [..|left]].
    repeat case_bool_decide; simpl; (split_and!; [done|lia|]); try by left.
    right. eexists j, u, _. split_and!; [done| |done]. by constructor.
  - rewrite login_run.
    destruct (find_user _ (users w)) as [[j u]|]; [|by split_and!; [..|left]].
    destruct (bcrypt_compare p (password u)); simpl; by split_and!; [..|left].
Qed.

Lemma run_clock cs w :
  clock (run cs w) = clock w ∧ (clock_reads w ≤ clock_reads (run cs w))%nat.
Proof.
  revert w. induction cs as [|call cs IH]; intros w; [done|].
  rewrite run_cons. destruct (IH (exec call w)) as [-> Hle].
  destruct (exec_found call w) as (-> & Hle' & _). split; [done|lia].
Qed.

(** X1.  No call adds or removes a user or changes an email, and a call
    changes no stored record other than the one of the first user whose
    email is exactly the string the call looks up (the submitted email for
    the reset statics, its lower-cased and trimmed form for [findByCreds],
    which changes none). *)
Theorem calls_touch_one_record call w :
  email <$> users (exec call w) = email <$> users w
  ∧ ∀ j, users (exec call w) !! j ≠ users w !! j →
         (∀ e p, call ≠ login e p)
         ∧ ∃ u, find_user (call_email call) (users w) = Some (j, u).
Proof.
  destruct (exec_found call w) as (_ & _ & [->|(k & u & u' & Hf & Hstep & ->)]).
  { split; [done|]. by intros j []. }
  pose proof (find_user_Some _ _ _ _ Hf) as [Hk _].
  split.
  - rewrite list_fmap_insert, (stored_step_email _ _ _ Hstep).
    apply list_insert_id. by rewrite list_lookup_fmap, Hk.
  - intros j Hj. split; [by destruct Hstep|].
    destruct (decide (j = k)) as [->|Hne]; [by eauto|].
    by rewrite list_lookup_insert_ne in Hj.
Qed.

(** X2.  A stored password changes only through a password commit: when
    the passwords of the collection differ after a call, the call was
    [findByEmailAndResetPassword] with the token that is pending for the
    user found under the email, no older than the token period at the
    reading of the call, and what is stored for that user is the
    [bcrypt_hash] of the submitted password. *)
Theorem password_changes_only_by_commit call w :
  password <$> users (exec call w) ≠ password <$> users w →
  ∃ e p i u rt,
    call = commitNewPassword e (Some (token rt)) p
    ∧ find_user e (users w) = Some (i, u)
    ∧ resetPasswordToken u = Some rt
    ∧ clock w (clock_reads w) - token_requestedAt rt
        ≤ RESET_PASSWORD_TOKEN_TIME_PERIOD_LENGTH
    ∧ password <$> users (exec call w)
      = <[i := bcrypt_hash p]> (password <$> users w).
Proof.
  intros Hdiff.
  assert (∀ k u u', users w !! k = Some u → password u' = password u →
            password <$> <[k := u']> (users w) = password <$> users w) as Hsame.
  { intros k u u' Hk Hp. rewrite list_fmap_insert, Hp.
    apply list_insert_id. by rewrite list_lookup_fmap, Hk. }
  destruct call as [e|e c|e t p|e p]; simpl in Hdiff |- *.
  - exfalso. apply Hdiff. rewrite request_code_run.
    destruct (find_user e (users w)) as [[k u]|] eqn:Hf; [|done].
    apply find_user_Some in Hf as [Hk _]. by apply (Hsame k u).
  - exfalso. apply Hdiff. rewrite verify_code_run. destruct c as [c|]; [|done].
    destruct (find_user e (users w)) as [[k u]|] eqn:Hf; [|done].
    apply find_user_Some in Hf as [Hk _].
    destruct (resetPasswordCode u) as [rc|]; [|done].
    repeat case_bool_decide; simpl; try done; by apply (Hsame k u).
  - revert Hdiff. rewrite commit_run. destruct t as [t|]; [|done].
    destruct (find_user e (users w)) as [[k u]|] eqn:Hf; [|done].
    destruct (resetPasswordToken u) as [rt|] eqn:Hrt; [|done].
    repeat case_bool_decide; simpl; try done.
    intros _. exists e, p, k, u, rt. subst t.
    split_and!; [done..|lia|]. by rewrite list_fmap_insert.
  - exfalso. apply Hdiff. rewrite login_run.
    destruct (find_user _ (users w)) as [[k u]|]; [|done].
    by destruct (bcrypt_compare p (password u)).
Qed.

Lemma stored_step_in_range call u u' :
  stored_step call u u' → guess_count_in_range u → guess_count_in_range u'.
Proof. unfold guess_count_in_range. destruct 1; simpl; lia. Qed.

(** X3.  From a collection in which every guess count is between 0 and
    [RESET_PASSWORD_MAX_GUESS_COUNT], every sequence of calls leads to such
    a collection: no more wrong guesses than the limit are ever counted
    against a user. *)
Theorem guess_count_stays_in_range w cs :
  Forall guess_count_in_range (users w) →
  Forall guess_count_in_range (users (run cs w)).
Proof.
  revert w. induction cs as [|call cs IH]; intros w Hw; [done|].
  rewrite run_cons. apply IH.
  destruct (exec_users call w) as [->|(e & j & u & u' & Hf & Hstep & ->)];
    [done|].
  apply Forall_insert; [done|].
  apply (stored_step_in_range _ _ _ Hstep).
  apply find_user_Some in Hf as [Hj _].
  by apply (Forall_lookup_1 _ _ _ _ Hw Hj).
Qed.

(** X4.  A code verifies once: after a verification that returned a
    token, every code submitted for that email, on any world with the
    resulting collection, is refused with the no-pending-code error. *)
Theorem code_verifies_once e c w tok :
  (findByEmailAndRequestResetPasswordToken e c w).1 = inr tok →
  ∀ w' c',
    users w' = users (findByEmailAndRequestResetPasswordToken e c w).2 →
    findByEmailAndRequestResetPasswordToken e (Some c') w'
    = (inl (CodeNotFound e), w').
Proof.
  rewrite verify_code_run. destruct c as [c|]; [|done].
  destruct (find_user e (users w)) as [[i u]|] eqn:Hf; [|done].
  destruct (resetPasswordCode u) as [rc|] eqn:Hrc; [|done].
  repeat case_bool_decide; simpl; try done.
  intros _ w' c' Hw'. rewrite (verify_code_run e (Some c') w'), Hw'.
  by erewrite find_user_insert by done.
Qed.

(** X5.  A new code request revokes the pending token: after a code
    request that returned, every token submitted for that email, on any
    world with the resulting collection, is refused with the
    no-pending-token error. *)
Theorem code_request_revokes_token e w :
  (findByEmailAndRequestResetPasswordCode e w).1 = inr () →
  ∀ w' t p,
    users w' = users (findByEmailAndRequestResetPasswordCode e w).2 →
    findByEmailAndResetPassword e (Some t) p w' = (inl (TokenNotFound e), w').
Proof.
  rewrite request_code_run.
  destruct (find_user e (users w)) as [[i u]|] eqn:Hf; [|done].
  simpl. intros _ w' t p Hw'. rewrite (commit_run e (Some t) p w'), Hw'.
  by erewrite find_user_insert by done.
Qed.

Lemma with_guess_count_same u :
  with_guess_count u (resetPasswordCodeGuessCount u) = u.
Proof. by destruct u. Qed.

(** X6.  Wrong guesses are counted one by one and the limit is exact.
    For a user with a pending code that stays within the code period at
    the clock readings concerned, a series of wrong codes that does not
    take the guess count beyond [RESET_PASSWORD_MAX_GUESS_COUNT] leaves the
    record as it was but for the count, which has grown by the number of
    wrong codes; while the count is still below the limit the correct code
    is then accepted, and once it has reached the limit the correct code is
    refused. *)
Theorem wrong_guesses_up_to_limit e wrongs w i u rc :
  find_user e (users w) = Some (i, u) →
  resetPasswordCode u = Some rc →
  Forall (λ c, sha256 c ≠ code rc) wrongs →
  (∀ k, (clock_reads w ≤ k ≤ clock_reads w + length wrongs)%nat →
        clock w k - code_requestedAt rc
          ≤ RESET_PASSWORD_CODE_TIME_PERIOD_LENGTH) →
  resetPasswordCodeGuessCount u + Z.of_nat (length wrongs)
    ≤ RESET_PASSWORD_MAX_GUESS_COUNT →
  let w' := run ((λ c, verifyResetCode e (Some c)) <$> wrongs) w in
  let n := resetPasswordCodeGuessCount u + Z.of_nat (length wrongs) in
  users w' = <[i := with_guess_count u n]> (users w)
  ∧ ∀ c, sha256 c = code rc →
      if decide (n < RESET_PASSWORD_MAX_GUESS_COUNT)
      then ∃ tok, (findByEmailAndRequestResetPasswordToken e (Some c) w').1
                  = inr tok
      else (findByEmailAndRequestResetPasswordToken e (Some c) w').1
           = inl RateLimited.
Proof.
  intros Hf Hrc Hwrong Hfresh Hroom. cbv zeta.
  assert (∀ w0 u0,
     clock w0 = clock w →
     (∀ k, (clock_reads w0 ≤ k ≤ clock_reads w0 + length wrongs)%nat →
           clock w k - code_requestedAt rc
             ≤ RESET_PASSWORD_CODE_TIME_PERIOD_LENGTH) →
     find_user e (users w0) = Some (i, u0) →
     resetPasswordCode u0 = Some rc →
     resetPasswordCodeGuessCount u0 + Z.of_nat (length wrongs)
       ≤ RESET_PASSWORD_MAX_GUESS_COUNT →
     let w1 := run ((λ c, verifyResetCode e (Some c)) <$> wrongs) w0 in
     clock w1 = clock w
     ∧ clock_reads w1 = (clock_reads w0 + length wrongs)%nat
     ∧ users w1
       = <[i := with_guess_count u0
                  (resetPasswordCodeGuessCount u0 + Z.of_nat (length wrongs))]>
           (users w0)) as Hloop.
  { clear Hf Hroom Hfresh.
    induction Hwrong as [|c cs Hc _ IH];
      intros w0 u0 Hclock Hfresh Hf0 Hrc0 Hroom.
    - simpl. split; [done|]. split; [lia|].
      rewrite Z.add_0_r, with_guess_count_same.
      apply find_user_Some in Hf0 as [Hi _]. by rewrite list_insert_id.
    - cbv zeta. rewrite fmap_cons, run_cons.
      assert (exec (verifyResetCode e (Some c)) w0
              = advance 1 0 (<[i := guess_counted u0]> (users w0)) w0) as Hstep.
      { simpl. rewrite verify_code_run, Hf0, Hrc0.
        rewrite bool_decide_eq_false_2 by (simpl in Hroom; lia).
        rewrite bool_decide_eq_false_2
          by (rewrite Hclock; specialize (Hfresh (clock_reads w0)); simpl in Hfresh; lia).
        by rewrite bool_decide_eq_true_2 by congruence. }
      rewrite Hstep.
      destruct (IH (advance 1 0 (<[i := guess_counted u0]> (users w0)) w0)
                  (guess_counted u0)) as (Hc1 & Hr1 & Hu1).
      + done.
      + intros k Hk. apply Hfresh. simpl in *. lia.
      + simpl. by apply (find_user_insert _ _ _ u0).
      + done.
      + simpl in *. lia.
      + split; [done|]. split; [simpl in *; lia|].
        rewrite Hu1. simpl. rewrite list_insert_insert_eq.
        f_equal. unfold with_guess_count, guess_counted. simpl. f_equal.
        simpl in *. lia. }
  destruct (Hloop w u eq_refl Hfresh Hf Hrc Hroom) as (Hclock & Hreads & Husers).
  split; [done|]. intros c Hc.
  rewrite verify_code_run, Husers.
  erewrite find_user_insert by done. simpl. rewrite Hrc.
  destruct (decide (_ < _)) as [Hlt|Hge].
  - rewrite bool_decide_eq_false_2 by lia.
    rewrite bool_decide_eq_false_2
      by (rewrite Hclock, Hreads;
          specialize (Hfresh (clock_reads w + length wrongs)%nat); lia).
    rewrite bool_decide_eq_false_2 by (intros Hne; apply Hne; congruence).
    simpl. eauto.
  - by rewrite bool_decide_eq_true_2 by lia.
Qed.

(** X7.  Wrong tokens are not counted.  A series of commits with tokens
    other than the pending one leaves the collection as it was, however
    long it is; the pending token is still accepted afterwards when it is
    submitted within the token period. *)
Theorem wrong_tokens_are_not_counted e wrongs p w i u rt :
  find_user e (users w) = Some (i, u) →
  resetPasswordToken u = Some rt →
  Forall (λ t, t ≠ token rt) wrongs →
  let w' := run ((λ t, commitNewPassword e (Some t) p) <$> wrongs) w in
  users w' = users w
  ∧ ∀ p',
      clock w' (clock_reads w') - token_requestedAt rt
        ≤ RESET_PASSWORD_TOKEN_TIME_PERIOD_LENGTH →
      ∃ returned,
        (findByEmailAndResetPassword e (Some (token rt)) p' w').1 = inr returned.
Proof.
  intros Hf Hrt Hwrong. cbv zeta.
  assert (∀ w0, users w0 = users w →
     users (run ((λ t, commitNewPassword e (Some t) p) <$> wrongs) w0) = users w)
    as Hloop.
  { induction Hwrong as [|t ts Ht _ IH]; intros w0 Hw0; [done|].
    rewrite fmap_cons, run_cons. apply IH. simpl.
    rewrite commit_run, Hw0, Hf, Hrt.
    case_bool_decide; [done|]. by rewrite bool_decide_eq_true_2. }
  split; [by apply Hloop|]. intros p' Hfresh.
  rewrite commit_run, (Hloop w eq_refl), Hf, Hrt.
  rewrite bool_decide_eq_false_2 by lia.
  rewrite bool_decide_eq_false_2 by (intros Hne; by apply Hne).
  simpl. eauto.
Qed.

Lemma code_out_of_date_exec e call w :
  (∀ a b, (a ≤ b)%nat → clock w a ≤ clock w b) →
  code_out_of_date e w → call ≠ requestResetCode e →
  code_out_of_date e (exec call w).
Proof.
  intros Hmono Hold Hcall i u rc Hf Hrc.
  destruct (exec_found call w) as (Hclock & Hreads & Husers).
  rewrite Hclock. pose proof (Hmono _ _ Hreads) as Hlater.
  destruct Husers as [Hsame|(j & u0 & u' & Hf0 & Hstep & Hins)].
  { rewrite Hsame in Hf. specialize (Hold i u rc Hf Hrc). lia. }
  rewrite Hins in Hf.
  pose proof (find_user_Some _ _ _ _ Hf0) as [Hj He0].
  rewrite (find_user_insert_email e _ j u0 u' Hj (stored_step_email _ _ _ Hstep))
    in Hf.
  destruct (find_user e (users w)) as [[k v]|] eqn:Hfe; [|done].
  simpl in Hf. injection Hf as <- Hu.
  pose proof (find_user_Some _ _ _ _ Hfe) as [Hk Hv].
  destruct (decide (k = j)) as [->|Hne]; subst u.
  - assert (v = u0) as -> by congruence.
    destruct Hstep as [e0 u0 ? ? He|e0 c0 u0 He|e0 c0 u0 ? ? He|e0 t0 p0 u0 ? He];
      simpl in Hrc.
    + congruence.
    + specialize (Hold j u0 rc Hfe Hrc). lia.
    + done.
    + specialize (Hold j u0 rc Hfe Hrc). lia.
  - specialize (Hold k v rc Hfe Hrc). lia.
Qed.

(** X8.  An expired code stays expired.  When the clock never goes back
    and the code pending for an email is older than the code period, then
    after any sequence of calls that requests no new code for that email
    no submitted code is accepted for it. *)
Theorem expired_code_is_never_accepted e w cs c :
  (∀ a b, (a ≤ b)%nat → clock w a ≤ clock w b) →
  code_out_of_date e w →
  Forall (λ call, call ≠ requestResetCode e) cs →
  ¬ ∃ tok, (findByEmailAndRequestResetPasswordToken e c (run cs w)).1 = inr tok.
Proof.
  intros Hmono Hold Hcs.
  assert (code_out_of_date e (run cs w)) as Hrun.
  { revert w Hmono Hold. induction Hcs as [|call cs Hcall _ IH]; intros w Hmono Hold;
      [done|].
    rewrite run_cons. apply IH.
    - destruct (exec_found call w) as (-> & _ & _). done.
    - by apply code_out_of_date_exec. }
  intros [tok Htok]. revert Htok. rewrite verify_code_run.
  destruct c as [c|]; [|done].
  destruct (find_user e (users (run cs w))) as [[i u]|] eqn:Hf; [|done].
  destruct (resetPasswordCode u) as [rc|] eqn:Hrc; [|done].
  specialize (Hrun i u rc Hf Hrc).
  case_bool_decide; [done|]. by rewrite bool_decide_eq_true_2.
Qed.

(** X9.  The whole reset in one go.  For a stored user, with a positive
    guess limit, a code request, the verification of the code it generated
    within the code period, and the commit of the token that verification
    returned within the token period all return; the user then has the
    [bcrypt_hash] of the new password, no pending code, no pending token
    and a guess count of 0, and no other record has changed. *)
Theorem reset_flow_completes e p w i u :
  find_user e (users w) = Some (i, u) →
  0 < RESET_PASSWORD_MAX_GUESS_COUNT →
  clock w (1 + clock_reads w) - clock w (clock_reads w)
    ≤ RESET_PASSWORD_CODE_TIME_PERIOD_LENGTH →
  clock w (4 + clock_reads w) - clock w (3 + clock_reads w)
    ≤ RESET_PASSWORD_TOKEN_TIME_PERIOD_LENGTH →
  let plain := digits (rng w) (rng_draws w) RESET_PASSWORD_CODE_LENGTH in
  let r1 := findByEmailAndRequestResetPasswordCode e w in
  let r2 := findByEmailAndRequestResetPasswordToken e (Some plain) r1.2 in
  r1.1 = inr ()
  ∧ ∃ tok,
      r2.1 = inr tok
      ∧ let r3 := findByEmailAndResetPassword e (Some tok) p r2.2 in
        (∃ returned, r3.1 = inr returned)
        ∧ users r3.2
          = <[i := {| email := email u; password := bcrypt_hash p;
                      resetPasswordCode := None;
                      resetPasswordToken := None;
                      resetPasswordCodeGuessCount := 0 |}]> (users w).
Proof.
  intros Hf Hmax Hcode Htoken. cbv zeta.
  rewrite request_code_run, Hf. simpl. split; [done|].
  rewrite verify_code_run. simpl.
  erewrite find_user_insert by done. simpl.
  rewrite bool_decide_eq_false_2 by lia.
  rewrite bool_decide_eq_false_2 by (simpl in *; lia).
  rewrite bool_decide_eq_false_2 by (intros Hne; by apply Hne).
  simpl. eexists. split; [done|].
  rewrite commit_run. simpl.
  erewrite find_user_insert; [|by erewrite find_user_insert by done|done].
  simpl.
  rewrite bool_decide_eq_false_2 by (simpl in *; lia).
  rewrite bool_decide_eq_false_2 by (intros Hne; by apply Hne).
  simpl. split; [eauto|]. by rewrite !list_insert_insert_eq.
Qed.

End More.

(** ** Lower-casing and trimming *)

Section Normal.

Lemma lower_char_idem c : JS.lower_char (JS.lower_char c) = JS.lower_char c.
Proof. destruct c as [[] [] [] [] [] [] [] []]; reflexivity. Qed.

Lemma is_space_lower_char c : JS.is_space (JS.lower_char c) = JS.is_space c.
Proof. destruct c as [[] [] [] [] [] [] [] []]; reflexivity. Qed.

Lemma toLowerCase_idem s : JS.toLowerCase (JS.toLowerCase s) = JS.toLowerCase s.
Proof. induction s as [|c s IH]; simpl; [done|]. by rewrite lower_char_idem, IH. Qed.

Lemma toLowerCase_trimStart s :
  JS.toLowerCase (JS.trimStart s) = JS.trimStart (JS.toLowerCase s).
Proof.
  induction s as [|c s IH]; simpl; [done|].
  rewrite is_space_lower_char. by destruct (JS.is_space c).
Qed.

Lemma toLowerCase_trimEnd s :
  JS.toLowerCase (JS.trimEnd s) = JS.trimEnd (JS.toLowerCase s).
Proof.
  induction s as [|c s IH]; simpl; [done|].
  rewrite <- IH, is_space_lower_char.
  destruct (JS.trimEnd s); simpl; [|done]. by destruct (JS.is_space c).
Qed.

Lemma trimStart_starts_clean s : starts_clean (JS.trimStart s).
Proof.
  induction s as [|c s IH]; simpl; [done|].
  destruct (JS.is_space c) eqn:Hc; [done|]. simpl. done.
Qed.

Lemma trimEnd_starts_clean s : starts_clean s → starts_clean (JS.trimEnd s).
Proof.
  destruct s as [|c s]; simpl; [done|]. intros Hc.
  destruct (JS.trimEnd s); simpl; [|done]. by rewrite Hc.
Qed.

Lemma trimStart_clean s : starts_clean s → JS.trimStart s = s.
Proof. destruct s as [|c s]; simpl; [done|]. by intros ->. Qed.

Lemma trimEnd_idem s : JS.trimEnd (JS.trimEnd s) = JS.trimEnd s.
Proof.
  induction s as [|c s IH]; simpl; [done|].
  destruct (JS.trimEnd s) as [|a r] eqn:Hr.
  - destruct (JS.is_space c) eqn:Hc; simpl; [done|]. by rewrite Hc.
  - change (JS.trimEnd (String c (String a r))) with
      (match JS.trimEnd (String a r) with
       | EmptyString =>
           if JS.is_space c then EmptyString else String c EmptyString
       | r' => String c r'
       end).
    by rewrite IH.
Qed.

Lemma trim_idem s : JS.trim (JS.trim s) = JS.trim s.
Proof.
  unfold JS.trim.
  rewrite (trimStart_clean (JS.trimEnd (JS.trimStart s)))
    by apply trimEnd_starts_clean, trimStart_starts_clean.
  apply trimEnd_idem.
Qed.

Lemma normalise_idem s :
  JS.trim (JS.toLowerCase (JS.trim (JS.toLowerCase s)))
  = JS.trim (JS.toLowerCase s).
Proof.
  unfold JS.trim at 2.
  rewrite toLowerCase_trimEnd, toLowerCase_trimStart, toLowerCase_idem.
  apply trim_idem.
Qed.

End Normal.

Section Credentials.
Context `{!Methods}.

Local Arguments findByCreds : simpl never.

(** X10.  [findByCreds] gives the same outcome for an email and for its
    lower-cased, trimmed form, and it only ever returns a user whose stored
    email is already lower-case and trimmed: a user stored under any other
    spelling cannot log in, whatever email is submitted. *)
Theorem login_reaches_normal_emails_only e p w :
  findByCreds (JS.trim (JS.toLowerCase e)) p w = findByCreds e p w
  ∧ ∀ session,
      (findByCreds e p w).1 = inr session →
      ∃ i u,
        users w !! i = Some u
        ∧ session_user session = getPublic u
        ∧ email u = JS.trim (JS.toLowerCase e)
        ∧ JS.trim (JS.toLowerCase (email u)) = email u
        ∧ bcrypt_compare p (password u) = true.
Proof.
  split.
  - by rewrite !login_run, normalise_idem.
  - intros session. rewrite login_run.
    destruct (find_user _ (users w)) as [[i u]|] eqn:Hf; [|done].
    destruct (bcrypt_compare p (password u)) eqn:Hp; [|done].
    simpl. intros [= <-]. apply find_user_Some in Hf as [Hi He].
    exists i, u. split_and!; try done. by rewrite He, normalise_idem.
Qed.

End Credentials.

Section Registering.
Context `{!Registration}.

(** X11.  [register] creates nothing unless the two passwords are equal:
    with different passwords it throws its passwords-must-match error and
    leaves the world as it was, without reaching [create]; and whenever it
    returns, the passwords were equal, [create] and then
    [setVerificationCode] returned, and the document it returns is the one
    [setVerificationCode] handed back. *)
Theorem register_needs_equal_passwords info w :
  (info_password info ≠ info_password2 info →
     register info w = (inl PasswordsDiffer, w))
  ∧ ∀ d,
      (register info w).1 = inr d →
      info_password info = info_password2 info
      ∧ ∃ created w1,
          create info w = (inr created, w1)
          ∧ setVerificationCode created w1 = (inr d, (register info w).2).
Proof.
  unfold register, mbind, M_bind, mret, M_ret, throw. split.
  - intros Hne. by rewrite bool_decide_eq_true_2.
  - intros d. case_bool_decide as Heq; [done|].
    destruct (create info w) as [[err|created] w1]; [done|].
    destruct (setVerificationCode created w1) as [[err|d'] w2] eqn:Hset; [done|].
    simpl. intros [= <-]. split; [done|]. by exists created, w1.
Qed.

End Registering.

(** ** The Articles statics *)

Module ArticleFacts.
Import Articles.

Section Facts.
Context `{!Sources, !Services}.

Implicit Types (s : Store) (a : Article) (k id : string).

Local Ltac run :=
  unfold findArticleByUrl, findArticleByKey, mbind, A_bind, mret, A_ret,
    ArticleSources_findOne, Articles.findOne, Articles.save, scrape, fail,
    Articles.call; simpl.

(** The store after one more run of the scraper. *)
Local Abbreviation scraped_once s :=
  {| articles := articles s; article_sources := article_sources s;
     scrapes := S (scrapes s) |}.

Lemma find_by_key_run id k upsert s :
  findArticleByKey id k upsert s =
  match find_source id (article_sources s) with
  | None => (inl (NoSource id), s)
  | Some (sid, _) =>
      match find_article k sid (articles s) with
      | Some (_, doc) => (inr doc, s)
      | None =>
          match scrapeArticle id k with
          | inl err => (inl err, scraped_once s)
          | inr data =>
              match getSource (article_sources s)
                      {| title := scraped_title data;
                         paragraphs := scraped_paragraphs data;
                         extract := scraped_extract data;
                         sourceId := sid; key := k |} with
              | inl err => (inl err, scraped_once s)
              | inr a =>
                  (inr a,
                   if bool_decide (upsert = Some true)
                   then {| articles := articles s ++ [a];
                           article_sources := article_sources s;
                           scrapes := S (scrapes s) |}
                   else scraped_once s)
              end
          end
      end
  end.
Proof.
  run. destruct (find_source id (article_sources s)) as [[sid src]|]; [|done].
  simpl. destruct (find_article k sid (articles s)) as [[j doc]|]; [done|].
  simpl. destruct (scrapeArticle id k) as [err|data]; [done|].
  destruct (getSource _ _) as [err|a]; [done|].
  by case_bool_decide.
Qed.

Lemma find_by_url_run u upsert s :
  findArticleByUrl u upsert s =
  match getIdentifier u with
  | inl err => (inl err, s)
  | inr id =>
      match getArticleKey u with
      | inl err => (inl err, s)
      | inr k => findArticleByKey id k upsert s
      end
  end.
Proof.
  unfold findArticleByUrl, mbind, A_bind, Articles.call, ArticleSources_findOne.
  destruct (getIdentifier u) as [err|id]; [done|].
  by destruct (getArticleKey u) as [err|k].
Qed.

(** X12.  [findArticleByKey] never changes or removes a stored article or
    an article source.  It stores something only when [upsert] is [true],
    no article was stored under the key for the source, and the scraper and
    [getSource] returned; what it then appends to the collection is exactly
    the article it returns. *)
Theorem find_by_key_only_appends id k upsert s :
  let r := findArticleByKey id k upsert s in
  article_sources r.2 = article_sources s
  ∧ (articles r.2 = articles s
     ∨ ∃ a sid src,
         upsert = Some true
         ∧ find_source id (article_sources s) = Some (sid, src)
         ∧ find_article k sid (articles s) = None
         ∧ r.1 = inr a
         ∧ articles r.2 = articles s ++ [a]).
Proof.
  cbv zeta. rewrite find_by_key_run.
  destruct (find_source id (article_sources s)) as [[sid src]|] eqn:Hsrc;
    [|by split; [|left]].
  destruct (find_article k sid (articles s)) as [[j doc]|] eqn:Hdoc;
    [by split; [|left]|].
  destruct (scrapeArticle id k) as [err|data]; [by split; [|left]|].
  destruct (getSource _ _) as [err|a]; [by split; [|left]|].
  case_bool_decide; simpl; [|by split; [|left]].
  split; [done|]. right. by exists a, sid, src.
Qed.

(** X13.  An upserted article is found again.  When a call with [upsert]
    returned an article that still has the key and the source it was asked
    for, every later call for the same identifier and key, with or without
    [upsert], on a store with the resulting collections, returns that
    article and neither scrapes nor stores anything. *)
Theorem upserted_article_is_found_again id k s a sid src :
  find_source id (article_sources s) = Some (sid, src) →
  (findArticleByKey id k (Some true) s).1 = inr a →
  key a = k → sourceId a = sid →
  ∀ upsert s',
    articles s' = articles (findArticleByKey id k (Some true) s).2 →
    article_sources s' = article_sources s →
    findArticleByKey id k upsert s' = (inr a, s').
Proof.
  intros Hsrc Hret Hk Hsid upsert s' Harticles Hsources.
  rewrite find_by_key_run, Hsources, Hsrc, Harticles.
  revert Hret. rewrite find_by_key_run, Hsrc.
  destruct (find_article k sid (articles s)) as [[j doc]|] eqn:Hdoc.
  { simpl. intros [= ->]. by rewrite Hdoc. }
  destruct (scrapeArticle id k) as [err|data]; [done|].
  destruct (getSource _ _) as [err|a']; [done|].
  simpl. intros [= ->].
  unfold find_article in *. rewrite list_find_app_r by done. simpl.
  rewrite decide_True by done. done.
Qed.

Lemma find_by_url_keeps_collections u s :
  articles (findArticleByUrl u None s).2 = articles s
  ∧ article_sources (findArticleByUrl u None s).2 = article_sources s.
Proof.
  rewrite find_by_url_run.
  destruct (getIdentifier u) as [err|id]; [done|].
  destruct (getArticleKey u) as [err|k]; [done|].
  rewrite find_by_key_run.
  destruct (find_source id (article_sources s)) as [[sid src]|]; [|done].
  destruct (find_article k sid (articles s)) as [[j doc]|]; [done|].
  destruct (scrapeArticle id k) as [err|data]; [done|].
  by destruct (getSource _ _) as [err|a].
Qed.

(** Mapping a static over a list keeps what every single call keeps, and
    when it returns, every call returned, from a store that had it. *)
Lemma mapM_keeps {X Y} (I : Store → Prop) (f : X → A Y) l s :
  (∀ x s0, I s0 → I (f x s0).2) → I s →
  I (mapM f l s).2
  ∧ ∀ ys, (mapM f l s).1 = inr ys →
          Forall2 (λ x y, ∃ s0, I s0 ∧ (f x s0).1 = inr y) l ys.
Proof.
  intros Hf. revert s. induction l as [|x l IH]; intros s Hs.
  { split; [done|]. intros ys [= <-]. constructor. }
  change (mapM f (x :: l) s) with
    (match f x s with
     | (inl err, s1) => (inl err, s1)
     | (inr y, s1) =>
         match mapM f l s1 with
         | (inl err, s2) => (inl err, s2)
         | (inr ys, s2) => (inr (y :: ys), s2)
         end
     end).
  pose proof (Hf x s Hs) as Hs1.
  destruct (f x s) as [[err|y] s1] eqn:Hx; simpl in Hs1; [done|].
  destruct (IH s1 Hs1) as [Hs2 Hys].
  destruct (mapM f l s1) as [[err|ys] s2]; simpl in *; [done|].
  split; [done|]. intros ? [= <-]. constructor; [|by apply Hys].
  exists s. by rewrite Hx.
Qed.

Lemma mapM_call {X Y} (g : X → Error + Y) (l : list X) s :
  (mapM (λ x, Articles.call (g x)) l s).2 = s
  ∧ ∀ ys, (mapM (λ x, Articles.call (g x)) l s).1 = inr ys →
          Forall2 (λ x y, g x = inr y) l ys.
Proof.
  destruct (mapM_keeps (λ s0, s0 = s) (λ x, Articles.call (g x)) l s) as [Hs Hys];
    [done..|].
  split; [done|]. intros ys Hret.
  eapply Forall2_impl; [by apply Hys|]. by intros x y (s0 & _ & ?).
Qed.

Lemma mapM_find_sources ids s :
  mapM ArticleSources_findOne ids s
  = (inr ((λ id, find_source id (article_sources s)) <$> ids), s).
Proof.
  induction ids as [|id ids IH]; [done|].
  change (mapM ArticleSources_findOne (id :: ids) s) with
    (match mapM ArticleSources_findOne ids s with
     | (inl err, s2) => (inl err, s2)
     | (inr ys, s2) => (inr (find_source id (article_sources s) :: ys), s2)
     end).
  by rewrite IH.
Qed.

Lemma filter_from_sublist {X} (keep : nat → X → bool) i (l : list X) :
  sublist (filter_from keep i l) l.
Proof.
  revert i. induction l as [|x l IH]; intros i; simpl; [constructor|].
  destruct (keep i x); by constructor.
Qed.

Lemma filter_from_kept {X} (keep : nat → X → bool) i (l : list X) x :
  x ∈ filter_from keep i l → ∃ j, l !! j = Some x ∧ keep (i + j)%nat x = true.
Proof.
  revert i. induction l as [|y l IH]; intros i; simpl; [by intros ?%elem_of_nil|].
  destruct (keep i y) eqn:Hy.
  - intros [->|Hx]%elem_of_cons.
    + exists 0%nat. by rewrite Nat.add_0_r.
    + destruct (IH _ Hx) as (j & Hj & Hk). exists (S j).
      by rewrite Nat.add_succ_r.
  - intros Hx. destruct (IH _ Hx) as (j & Hj & Hk). exists (S j).
    by rewrite Nat.add_succ_r.
Qed.

(** The previews [webSearch] builds from the items, the identifiers and
    the keys. *)
Local Abbreviation previews_of s items ids keys :=
  (imap (λ i item, {| url := link item;
                      preview_snippet := snippet item;
                      preview_title := item_title item;
                      preview_source :=
                        mjoin (((λ id, find_source id (article_sources s))
                                  <$> ids) !! i);
                      preview_key := keys !! i |}) items).

Local Abbreviation same_collections s s0 :=
  (articles s0 = articles s ∧ article_sources s0 = article_sources s).

Lemma web_search_returns q s previews :
  (webSearch q s).1 = inr previews →
  ∃ items ids keys arts,
    Google_search q = inr items
    ∧ Forall2 (λ it id, getIdentifier (link it) = inr id) items ids
    ∧ Forall2 (λ it k, getArticleKey (link it) = inr k) items keys
    ∧ Forall2 (λ it a, ∃ s0, same_collections s s0
                             ∧ (findArticleByUrl (link it) None s0).1 = inr a)
        items arts
    ∧ previews = filter_from (λ i _, has_text (arts !! i)) 0
                   (previews_of s items ids keys).
Proof.
  unfold webSearch, mbind, A_bind, mret, A_ret. unfold Articles.call at 1.
  destruct (Google_search q) as [err|items]; [done|].
  destruct (mapM_call getIdentifier (link <$> items) s) as [Hs1 Hids].
  destruct (mapM (λ u, Articles.call (getIdentifier u)) (link <$> items) s)
    as [[err|ids] s1]; [done|].
  simpl in Hs1. subst s1. specialize (Hids ids eq_refl).
  destruct (mapM_call getArticleKey (link <$> items) s) as [Hs2 Hkeys].
  destruct (mapM (λ u, Articles.call (getArticleKey u)) (link <$> items) s)
    as [[err|keys] s2]; [done|].
  simpl in Hs2. subst s2. specialize (Hkeys keys eq_refl).
  rewrite mapM_find_sources.
  destruct (mapM_keeps (λ s0, same_collections s s0)
              (λ item, findArticleByUrl (url item) None)
              (previews_of s items ids keys) s) as [_ Harts].
  { intros p s0 [Ha Hs]. destruct (find_by_url_keeps_collections (url p) s0).
    split; congruence. }
  { done. }
  destruct (mapM (λ item, findArticleByUrl (url item) None)
              (previews_of s items ids keys) s) as [[err|arts] s3]; [done|].
  simpl. intros [= <-]. exists items, ids, keys, arts.
  specialize (Harts arts eq_refl).
  split_and!; [done|by apply Forall2_fmap_l in Hids
              |by apply Forall2_fmap_l in Hkeys| |done].
  apply Forall2_same_length_lookup. split.
  { apply Forall2_length in Harts. by rewrite length_imap in Harts. }
  intros i it a Hit Ha.
  assert (previews_of s items ids keys !! i
          = Some {| url := link it;
                    preview_snippet := snippet it;
                    preview_title := item_title it;
                    preview_source :=
                      mjoin (((λ id, find_source id (article_sources s))
                                <$> ids) !! i);
                    preview_key := keys !! i |}) as Hp.
  { by rewrite list_lookup_imap, Hit. }
  by destruct (Forall2_lookup_lr _ _ _ _ _ _ Harts Hp Ha) as (s0 & ? & ?);
    eauto.
Qed.

(** X14.  [webSearch] stores nothing: whatever it returns or throws, the
    articles and the article sources are as before.  The articles it
    scrapes for the results are not kept, since it calls
    [findArticleByUrl] without [upsert]. *)
Theorem web_search_stores_nothing q s :
  articles (webSearch q s).2 = articles s
  ∧ article_sources (webSearch q s).2 = article_sources s.
Proof.
  remember (webSearch q s) as r eqn:Hr. revert Hr.
  unfold webSearch, mbind, A_bind, mret, A_ret. unfold Articles.call at 1.
  destruct (Google_search q) as [err|items]; [by intros ->|].
  destruct (mapM_call getIdentifier (link <$> items) s) as [Hs1 _].
  destruct (mapM (λ u, Articles.call (getIdentifier u)) (link <$> items) s)
    as [[err|ids] s1]; simpl in Hs1; subst s1; [by intros ->|].
  destruct (mapM_call getArticleKey (link <$> items) s) as [Hs2 _].
  destruct (mapM (λ u, Articles.call (getArticleKey u)) (link <$> items) s)
    as [[err|keys] s2]; simpl in Hs2; subst s2; [by intros ->|].
  rewrite mapM_find_sources.
  destruct (mapM_keeps (λ s0, same_collections s s0)
              (λ item, findArticleByUrl (url item) None)
              (previews_of s items ids keys) s) as [Hkept _].
  { intros p s0 [Ha Hs]. destruct (find_by_url_keeps_collections (url p) s0).
    split; congruence. }
  { done. }
  by destruct (mapM (λ item, findArticleByUrl (url item) None)
                 (previews_of s items ids keys) s) as [[err|arts] s3];
    intros ->.
Qed.

(** X15.  What [webSearch] returns.  The previews it returns are a
    selection of the search results, in their order; each one carries the
    key [getArticleKey] gives for its own url and the source stored under
    the identifier [getIdentifier] gives for it, and the article found or
    scraped for that identifier and key has text that is not blank. *)
Theorem web_search_results q s previews :
  (webSearch q s).1 = inr previews →
  ∃ items,
    Google_search q = inr items
    ∧ sublist (url <$> previews) (link <$> items)
    ∧ ∀ p, p ∈ previews →
        ∃ id k a s0,
          getIdentifier (url p) = inr id
          ∧ getArticleKey (url p) = inr k
          ∧ preview_key p = Some k
          ∧ preview_source p = find_source id (article_sources s)
          ∧ articles s0 = articles s
          ∧ article_sources s0 = article_sources s
          ∧ (findArticleByKey id k None s0).1 = inr a
          ∧ (0 < String.length (JS.trim (String.concat "" (paragraphs a))))%nat.
Proof.
  intros (items & ids & keys & arts & Hsearch & Hids & Hkeys & Harts & ->)
    %web_search_returns.
  exists items. split; [done|]. split.
  - assert (link <$> items = url <$> previews_of s items ids keys) as ->.
    { rewrite fmap_imap. symmetry. apply imap_const. }
    apply fmap_sublist, filter_from_sublist.
  - intros p (i & Hp & Htext)%filter_from_kept. simpl in Htext.
    rewrite list_lookup_imap in Hp.
    destruct (items !! i) as [it|] eqn:Hit; simplify_eq/=.
    destruct (Forall2_lookup_l _ _ _ _ _ Hids Hit) as (id & Hid & Hgid).
    destruct (Forall2_lookup_l _ _ _ _ _ Hkeys Hit) as (k & Hk & Hgk).
    destruct (Forall2_lookup_l _ _ _ _ _ Harts Hit) as (a & Ha & s0 & [? ?] & Hfound).
    rewrite Ha in Htext. simpl in Htext. apply bool_decide_eq_true in Htext.
    rewrite find_by_url_run, Hgid, Hgk in Hfound.
    exists id, k, a, s0. split_and!; try done.
    by rewrite list_lookup_fmap, Hid.
Qed.

(** X16.  One unknown source fails the whole search: when the identifier
    of any one search result has no stored article source, [webSearch]
    throws, whatever the other results are. *)
Theorem web_search_needs_every_source q s items it id :
  Google_search q = inr items →
  it ∈ items →
  getIdentifier (link it) = inr id →
  find_source id (article_sources s) = None →
  ∃ err, (webSearch q s).1 = inl err.
Proof.
  intros Hsearch Hit Hid Hnone.
  destruct ((webSearch q s).1) as [err|previews] eqn:Hret; [by eauto|].
  exfalso.
  apply web_search_returns in Hret
    as (items' & ids & keys & arts & Hsearch' & _ & _ & Harts & _).
  assert (items' = items) as -> by congruence.
  apply list_elem_of_lookup in Hit as [i Hi].
  destruct (Forall2_lookup_l _ _ _ _ _ Harts Hi) as (a & _ & s0 & [_ Hs] & Hfound).
  revert Hfound. rewrite find_by_url_run, Hid.
  destruct (getArticleKey (link it)) as [err|k]; [done|].
  by rewrite find_by_key_run, Hs, Hnone.
Qed.

End Facts.
End ArticleFacts.

(** ** The protocol on the concrete configuration *)

Section Scenarios.

#[local] Existing Instance Demo.utils.
#[local] Existing Instance Demo.methods.

Import Demo.

Local Notation "'alice'" := "user@example.com" (only parsing).

(** Three guesses allowed, the code "12345678" issued at [t0]: wrong
    guesses one, two and three seconds later throw the mismatch error and
    bring the count to 1, 2 and 3; the correct code a second later is
    refused with the too-many-attempts error. *)
Example three_wrong_guesses :
  let wrong := Some "00000000" in
  let r1 := findByEmailAndRequestResetPasswordToken alice wrong
              (world [user alice pending None 0] (t0 + 1000)) in
  let r2 := findByEmailAndRequestResetPasswordToken alice wrong
              (world (users r1.2) (t0 + 2000)) in
  let r3 := findByEmailAndRequestResetPasswordToken alice wrong
              (world (users r2.2) (t0 + 3000)) in
  let r4 := findByEmailAndRequestResetPasswordToken alice (Some "12345678")
              (world (users r3.2) (t0 + 4000)) in
  (r1.1, r2.1, r3.1) = (inl CodeMismatch, inl CodeMismatch, inl CodeMismatch)
  ∧ (guess_counts r1.2, guess_counts r2.2, guess_counts r3.2) = ([1], [2], [3])
  ∧ r4.1 = inl RateLimited
  ∧ users r4.2 = users r3.2.
Proof. by vm_compute. Qed.

(** A code verified ten seconds after it was issued gives a token; the
    token committed a second later sets the password and removes the
    pending token; the same token submitted again is not found. *)
Example token_round_trip :
  let r1 := findByEmailAndRequestResetPasswordToken alice (Some "12345678")
              (world [user alice pending None 0] (t0 + 10000)) in
  let tok := "hash:sha256:123456781010001012345678901234567890123456789" in
  let r2 := findByEmailAndResetPassword alice (Some tok) "new password"
              (world (users r1.2) (t0 + 11000)) in
  let r3 := findByEmailAndResetPassword alice (Some tok) "new password"
              (world (users r2.2) (t0 + 12000)) in
  r1.1 = inr tok
  ∧ users r2.2
    = [ {| email := alice; password := "bcrypt:new password";
           resetPasswordCode := None; resetPasswordToken := None;
           resetPasswordCodeGuessCount := 0 |} ]
  ∧ r3.1 = inl (TokenNotFound alice).
Proof. by vm_compute. Qed.

(** A code issued at [t0] and submitted ten seconds later. *)
Lemma verify_code_succeeds_iff_witness :
  let w := world [user alice pending None 0] (t0 + 10000) in
  let u := user alice pending None 0 in
  let rc := {| code := "sha256:12345678"; code_requestedAt := t0 |} in
  find_user alice (users w) = Some (0%nat, u)
  ∧ resetPasswordCode u = Some rc
  ∧ let r := findByEmailAndRequestResetPasswordToken alice (Some "12345678") w in
    ((∃ tok, r.1 = inr tok) ↔
       sha256 "12345678" = code rc
       ∧ clock w (clock_reads w) - code_requestedAt rc
           ≤ RESET_PASSWORD_CODE_TIME_PERIOD_LENGTH
       ∧ resetPasswordCodeGuessCount u < RESET_PASSWORD_MAX_GUESS_COUNT)
    ∧ (∀ tok, r.1 = inr tok →
         ∃ u', users r.2 !! 0%nat = Some u'
               ∧ token <$> resetPasswordToken u' = Some tok).
Proof.
  intros w u rc. split; [reflexivity|]. split; [reflexivity|].
  apply (verify_code_succeeds_iff alice "12345678" w 0 u rc); reflexivity.
Defined.

Lemma verify_code_issues_token_witness :
  let w := world [user alice pending None 0] (t0 + 10000) in
  let c := Some "12345678" in
  let tok := "hash:sha256:123456781010001012345678901234567890123456789" in
  (findByEmailAndRequestResetPasswordToken alice c w).1 = inr tok
  ∧ ∃ i u rc submitted,
      c = Some submitted
      ∧ find_user alice (users w) = Some (i, u)
      ∧ resetPasswordCode u = Some rc
      ∧ code rc = sha256 submitted
      ∧ let stamp := clock w (S (clock_reads w)) in
        let now := clock w (S (S (clock_reads w))) in
        let random :=
          digits (rng w) (rng_draws w) RESET_PASSWORD_TOKEN_RANDOM_NUM_LENGTH in
        String.length random = RESET_PASSWORD_TOKEN_RANDOM_NUM_LENGTH
        ∧ tok = hashString (code rc +:+ toISOString stamp +:+ random)
        ∧ users (findByEmailAndRequestResetPasswordToken alice c w).2
          = <[i := {| email := email u; password := password u;
                      resetPasswordCode := None;
                      resetPasswordToken :=
                        Some {| token := tok; token_requestedAt := now |};
                      resetPasswordCodeGuessCount :=
                        resetPasswordCodeGuessCount u |}]> (users w).
Proof.
  intros w c tok. split; [reflexivity|].
  apply (verify_code_issues_token alice c w tok). reflexivity.
Defined.

(** A token issued at [t0 + 10 s] and committed one second later. *)
Lemma commit_follows_token_verifier_witness :
  let issued := Some {| token := "tok"; token_requestedAt := t0 + 10000 |} in
  let w := world [user alice None issued 0] (t0 + 11000) in
  let r := findByEmailAndResetPassword alice (Some "tok") "new password" w in
  TokenVerifier RESET_PASSWORD_TOKEN_TIME_PERIOD_LENGTH
    (clock w (clock_reads w)) (snd <$> find_user alice (users w)) (Some "tok")
  = None
  ∧ ∃ i u,
      find_user alice (users w) = Some (i, u)
      ∧ (∃ returned, r.1 = inr returned)
      ∧ users r.2
        = <[i := {| email := email u; password := bcrypt_hash "new password";
                    resetPasswordCode := resetPasswordCode u;
                    resetPasswordToken := None;
                    resetPasswordCodeGuessCount :=
                      resetPasswordCodeGuessCount u |}]> (users w)
      ∧ ∀ w' t' p',
          users w' = users r.2 →
          findByEmailAndResetPassword alice (Some t') p' w'
          = (inl (TokenNotFound alice), w').
Proof.
  intros issued w r. split; [reflexivity|].
  exact (commit_follows_token_verifier alice (Some "tok") "new password" w).
Defined.

(** The correct code, 301 seconds after it was issued, after one wrong
    guess. *)
Lemma expired_code_rejected_witness :
  let u := user alice pending None 1 in
  let w := world [u] (t0 + 301000) in
  let rc := {| code := "sha256:12345678"; code_requestedAt := t0 |} in
  let r := findByEmailAndRequestResetPasswordToken alice (Some "12345678") w in
  find_user alice (users w) = Some (0%nat, u)
  ∧ resetPasswordCode u = Some rc
  ∧ RESET_PASSWORD_CODE_TIME_PERIOD_LENGTH
      < clock w (clock_reads w) - code_requestedAt rc
  ∧ (resetPasswordCodeGuessCount u < RESET_PASSWORD_MAX_GUESS_COUNT →
       r.1 = inl CodeExpired)
  ∧ (RESET_PASSWORD_MAX_GUESS_COUNT ≤ resetPasswordCodeGuessCount u →
       r.1 = inl RateLimited)
  ∧ users r.2 = users w.
Proof.
  intros u w rc r. split; [reflexivity|]. split; [reflexivity|].
  split; [reflexivity|].
  apply (expired_code_rejected alice "12345678" w 0 u rc); reflexivity.
Defined.

(** The same submission after three wrong guesses: the code is correct and
    301 seconds old, and the call throws the too-many-attempts error, not
    the expiry error. *)
Lemma expired_code_counterexample :
  let u := user alice pending None 3 in
  let w := world [u] (t0 + 301000) in
  let r := findByEmailAndRequestResetPasswordToken alice (Some "12345678") w in
  find_user alice (users w) = Some (0%nat, u)
  ∧ resetPasswordCode u
    = Some {| code := sha256 "12345678"; code_requestedAt := t0 |}
  ∧ clock w (clock_reads w) - t0 = 301000
  ∧ r.1 = inl RateLimited
  ∧ r.1 ≠ inl CodeExpired.
Proof.
  intros u w r. split_and!; try reflexivity.
  intros Hr. vm_compute in Hr. discriminate Hr.
Qed.

(** Three wrong guesses were made; a verification, a commit, a login and a
    code request for somebody else follow. *)
Lemma lockout_persists_witness :
  let w := world [user alice pending None 3; user "bob@example.com" None None 0]
             (t0 + 4000) in
  let cs := [verifyResetCode alice (Some "12345678");
             commitNewPassword alice (Some "token") "new password";
             login alice "correct";
             requestResetCode "bob@example.com"] in
  locked_out alice w
  ∧ Forall (λ call, call ≠ requestResetCode alice) cs
  ∧ (∀ w' c,
       users w' = users (run cs w) →
       findByEmailAndRequestResetPasswordToken alice (Some c) w'
       = (inl RateLimited, w'))
  ∧ (∃ i u,
       find_user alice (users (exec (requestResetCode alice) (run cs w)))
       = Some (i, u)
       ∧ resetPasswordCodeGuessCount u = 0)
  ∧ (0 < RESET_PASSWORD_MAX_GUESS_COUNT →
       ¬ locked_out alice (exec (requestResetCode alice) (run cs w))).
Proof.
  intros w cs.
  assert (locked_out alice w) as Hlock.
  { exists 0%nat, (user alice pending None 3).
    split; [reflexivity|]. split; [eexists; reflexivity|]. simpl. lia. }
  assert (Forall (λ call, call ≠ requestResetCode alice) cs) as Hcs.
  { repeat constructor; discriminate. }
  split; [exact Hlock|]. split; [exact Hcs|].
  exact (lockout_persists alice w cs Hlock Hcs).
Defined.

(** One wrong guess, counted. *)
Lemma guess_count_changes_witness :
  let w := world [user alice pending None 1] (t0 + 2000) in
  let r := findByEmailAndRequestResetPasswordToken alice (Some "00000000") w in
  r.1 = inl CodeMismatch
  ∧ ∃ i u, find_user alice (users w) = Some (i, u)
           ∧ guess_counts r.2
             = <[i := resetPasswordCodeGuessCount u + 1]> (guess_counts w).
Proof.
  intros w r. split; [reflexivity|].
  exact (proj1 (guess_count_changes w) alice (Some "00000000")).
Defined.

(** A failed attempt that is not counted: a wrong code submitted 301
    seconds after the code was issued fails with the expiry error and the
    guess count stays at 1. *)
Lemma guess_count_counterexample :
  let w := world [user alice pending None 1] (t0 + 301000) in
  let r := findByEmailAndRequestResetPasswordToken alice (Some "00000000") w in
  r.1 = inl CodeExpired
  ∧ guess_counts w = [1]
  ∧ guess_counts r.2 = [1]
  ∧ guess_counts r.2 ≠ [1 + 1].
Proof.
  intros w r. split_and!; try reflexivity.
  intros Hr. vm_compute in Hr. discriminate Hr.
Qed.

(** A fresh user requests a code, guesses wrong once, then verifies. *)
Lemma at_most_one_pending_reachable_witness :
  let w := world [user alice None None 0] t0 in
  let cs := [requestResetCode alice;
             verifyResetCode alice (Some "00000000");
             verifyResetCode alice (Some "01234567")] in
  Forall at_most_one_pending (users w)
  ∧ Forall at_most_one_pending (users (run cs w))
  ∧ (∀ e, (findByEmailAndRequestResetPasswordCode e (run cs w)).1 = inr () →
       ∃ i u, find_user e
                (users (findByEmailAndRequestResetPasswordCode e (run cs w)).2)
              = Some (i, u)
              ∧ is_Some (resetPasswordCode u) ∧ resetPasswordToken u = None)
  ∧ (∀ e c tok,
       (findByEmailAndRequestResetPasswordToken e c (run cs w)).1 = inr tok →
       ∃ i u, find_user e
                (users (findByEmailAndRequestResetPasswordToken e c (run cs w)).2)
              = Some (i, u)
              ∧ resetPasswordCode u = None ∧ is_Some (resetPasswordToken u)).
Proof.
  intros w cs.
  assert (Forall at_most_one_pending (users w)) as Hw.
  { repeat constructor. intros [[? Hc] _]. discriminate Hc. }
  split; [exact Hw|].
  exact (at_most_one_pending_reachable w cs Hw).
Defined.

Lemma request_code_issues_code_witness :
  let u := user alice None (Some {| token := "stale"; token_requestedAt := 5 |}) 2 in
  let w := world [u] t0 in
  let r := findByEmailAndRequestResetPasswordCode alice w in
  find_user alice (users w) = Some (0%nat, u)
  ∧ String.length "01234567" = RESET_PASSWORD_CODE_LENGTH
  ∧ r.1 = inr ()
  ∧ users r.2
    = [ {| email := alice; password := "bcrypt:correct";
           resetPasswordCode :=
             Some {| code := sha256 "01234567"; code_requestedAt := t0 |};
           resetPasswordToken := None;
           resetPasswordCodeGuessCount := 0 |} ].
Proof.
  intros u w r. split; [reflexivity|].
  exact (request_code_issues_code alice w 0 u eq_refl).
Defined.

(** The stored email is lower case; the submitted one is not, and has
    blanks around it. *)
Lemma login_outcomes_witness :
  let w := world [user alice None None 0] t0 in
  (findByCreds "  User@Example.com " "correct" w).1
  = inr {| session_user := alice; session_token := "session:0:0" |}
  ∧ findByCreds alice "wrong" w = (inl InvalidCredentials, w)
  ∧ findByCreds "absent@example.com" "x" w = (inl InvalidCredentials, w).
Proof.
  intros w. split_and!.
  - exact (login_outcomes "  User@Example.com " "correct" w).
  - exact (login_outcomes alice "wrong" w).
  - exact (login_outcomes "absent@example.com" "x" w).
Defined.

Lemma reset_lookup_is_exact_witness :
  let u := user alice pending None 0 in
  let w := world [u] (t0 + 1000) in
  let e := " User@Example.com" in
  u ∈ users w
  ∧ JS.trim (JS.toLowerCase e) = JS.trim (JS.toLowerCase (email u))
  ∧ (∀ u', u' ∈ users w → email u' ≠ e)
  ∧ findByEmailAndRequestResetPasswordCode e w = (inl (UserNotFound e), w)
  ∧ (∀ c, findByEmailAndRequestResetPasswordToken e (Some c) w
          = (inl (CodeNotFound e), w))
  ∧ (∀ t p, findByEmailAndResetPassword e (Some t) p w
            = (inl (TokenNotFound e), w))
  ∧ (email u = JS.trim (JS.toLowerCase e) →
     ∃ i u0,
       find_user (email u) (users w) = Some (i, u0)
       ∧ ∀ p, bcrypt_compare p (password u0) = true →
              (findByCreds e p w).1
              = inr {| session_user := getPublic u0;
                       session_token :=
                         AuthTokens_generate i (rng w (rng_draws w)) |}).
Proof.
  intros u w e.
  assert (u ∈ users w) as Hu by constructor.
  assert (∀ u', u' ∈ users w → email u' ≠ e) as Hfresh.
  { intros u' Hin. apply list_elem_of_singleton in Hin. subst u'. discriminate. }
  split; [exact Hu|]. split; [reflexivity|]. split; [exact Hfresh|].
  exact (reset_lookup_is_exact e w u Hu eq_refl Hfresh).
Defined.

(** Two stored users whose emails differ in letter case only: the email of
    the second differs from the stored email of the first only in case, and
    the code request made with it succeeds, on the second user. *)
Lemma reset_lookup_counterexample :
  let u := user alice None None 0 in
  let e := "User@Example.com" in
  let w := world [u; user e None None 0] t0 in
  u ∈ users w
  ∧ JS.trim (JS.toLowerCase e) = email u
  ∧ e ≠ email u
  ∧ (findByEmailAndRequestResetPasswordCode e w).1 = inr ()
  ∧ (findByEmailAndRequestResetPasswordCode e w).1 ≠ inl (UserNotFound e).
Proof.
  intros u e w. split_and!; try reflexivity; try discriminate.
  constructor.
Qed.

End Scenarios.

(** ** The further properties on the concrete configuration *)

Section MoreScenarios.

#[local] Existing Instance Demo.utils.
#[local] Existing Instance Demo.methods.
#[local] Existing Instance Demo2.registration.

Import Demo.

Local Abbreviation alice := "user@example.com"%string.
Local Abbreviation bob := "bob@example.com"%string.
Local Abbreviation issued :=
  (Some {| token := "tok"; token_requestedAt := t0 |}).

Lemma calls_touch_one_record_witness :
  let w := world [user alice pending None 0; user bob None None 0] (t0 + 1000) in
  let call := verifyResetCode alice (Some "00000000") in
  email <$> users (exec call w) = email <$> users w
  ∧ ∀ j, users (exec call w) !! j ≠ users w !! j →
         (∀ e p, call ≠ login e p)
         ∧ ∃ u, find_user (call_email call) (users w) = Some (j, u).
Proof. intros w call. exact (calls_touch_one_record call w). Defined.

Lemma password_changes_only_by_commit_witness :
  let w := world [user alice None issued 0] (t0 + 1000) in
  let call := commitNewPassword alice (Some "tok") "new password" in
  password <$> users (exec call w) ≠ password <$> users w
  ∧ ∃ e p i u rt,
      call = commitNewPassword e (Some (token rt)) p
      ∧ find_user e (users w) = Some (i, u)
      ∧ resetPasswordToken u = Some rt
      ∧ clock w (clock_reads w) - token_requestedAt rt
          ≤ RESET_PASSWORD_TOKEN_TIME_PERIOD_LENGTH
      ∧ password <$> users (exec call w)
        = <[i := bcrypt_hash p]> (password <$> users w).
Proof.
  intros w call.
  assert (password <$> users (exec call w) ≠ password <$> users w) as Hdiff.
  { intros Heq. vm_compute in Heq. discriminate Heq. }
  split; [exact Hdiff|].
  exact (password_changes_only_by_commit call w Hdiff).
Defined.

Lemma guess_count_stays_in_range_witness :
  let w := world [user alice pending None 2; user bob None None 0] (t0 + 1000) in
  let cs := [verifyResetCode alice (Some "00000000");
             verifyResetCode alice (Some "11111111");
             requestResetCode bob] in
  Forall guess_count_in_range (users w)
  ∧ Forall guess_count_in_range (users (run cs w)).
Proof.
  intros w cs.
  assert (Forall guess_count_in_range (users w)) as Hw.
  { repeat constructor; unfold guess_count_in_range; simpl; lia. }
  split; [exact Hw|]. exact (guess_count_stays_in_range w cs Hw).
Defined.

Lemma code_verifies_once_witness :
  let w := world [user alice pending None 0] (t0 + 10000) in
  let c := Some "12345678" in
  let tok := "hash:sha256:123456781010001012345678901234567890123456789" in
  (findByEmailAndRequestResetPasswordToken alice c w).1 = inr tok
  ∧ ∀ w' c',
      users w' = users (findByEmailAndRequestResetPasswordToken alice c w).2 →
      findByEmailAndRequestResetPasswordToken alice (Some c') w'
      = (inl (CodeNotFound alice), w').
Proof.
  intros w c tok. split; [reflexivity|].
  exact (code_verifies_once alice c w tok eq_refl).
Defined.

Lemma code_request_revokes_token_witness :
  let w := world [user alice None issued 0] (t0 + 1000) in
  (findByEmailAndRequestResetPasswordCode alice w).1 = inr ()
  ∧ ∀ w' t p,
      users w' = users (findByEmailAndRequestResetPasswordCode alice w).2 →
      findByEmailAndResetPassword alice (Some t) p w'
      = (inl (TokenNotFound alice), w').
Proof.
  intros w. split; [reflexivity|].
  exact (code_request_revokes_token alice w eq_refl).
Defined.

(** Two wrong guesses after one that was counted before: the limit of
    three is reached and the correct code is refused. *)
Lemma wrong_guesses_up_to_limit_witness :
  let u := user alice pending None 1 in
  let w := world [u] (t0 + 1000) in
  let wrongs := ["00000000"; "11111111"] in
  let w' := run ((λ c, verifyResetCode alice (Some c)) <$> wrongs) w in
  users w' = [user alice pending None 3]
  ∧ ∀ c, sha256 c = "sha256:12345678" →
         (findByEmailAndRequestResetPasswordToken alice (Some c) w').1
         = inl RateLimited.
Proof.
  intros u w wrongs.
  assert (Forall (λ c, sha256 c ≠ "sha256:12345678") wrongs) as Hwrong.
  { repeat constructor; discriminate. }
  assert (∀ k, (clock_reads w ≤ k ≤ clock_reads w + length wrongs)%nat →
               clock w k - t0 ≤ RESET_PASSWORD_CODE_TIME_PERIOD_LENGTH) as Hfresh.
  { intros k [_ Hk]. change (t0 + 1000 + Z.of_nat k - t0 ≤ 300000).
    change (k ≤ 2)%nat in Hk. lia. }
  assert (resetPasswordCodeGuessCount u + Z.of_nat (length wrongs)
          ≤ RESET_PASSWORD_MAX_GUESS_COUNT) as Hroom.
  { simpl. lia. }
  exact (wrong_guesses_up_to_limit alice wrongs w 0 u
           {| code := "sha256:12345678"; code_requestedAt := t0 |}
           eq_refl eq_refl Hwrong Hfresh Hroom).
Defined.

Lemma wrong_tokens_are_not_counted_witness :
  let u := user alice None issued 0 in
  let w := world [u] (t0 + 1000) in
  let wrongs := ["guess"; "another guess"; "tok "] in
  let w' := run ((λ t, commitNewPassword alice (Some t) "mine") <$> wrongs) w in
  users w' = users w
  ∧ ∀ p',
      clock w' (clock_reads w') - t0 ≤ RESET_PASSWORD_TOKEN_TIME_PERIOD_LENGTH →
      ∃ returned,
        (findByEmailAndResetPassword alice (Some "tok") p' w').1 = inr returned.
Proof.
  intros u w wrongs.
  assert (Forall (λ t, t ≠ "tok") wrongs) as Hwrong.
  { repeat constructor; discriminate. }
  exact (wrong_tokens_are_not_counted alice wrongs "mine" w 0 u
           {| token := "tok"; token_requestedAt := t0 |} eq_refl eq_refl Hwrong).
Defined.

(** The code is 301 seconds old; a wrong guess, a commit and a login
    later the correct code is still not accepted. *)
Lemma expired_code_is_never_accepted_witness :
  let w := world [user alice pending None 0] (t0 + 301000) in
  let cs := [verifyResetCode alice (Some "00000000");
             commitNewPassword alice (Some "tok") "new password";
             login alice "correct"] in
  (∀ a b, (a ≤ b)%nat → clock w a ≤ clock w b)
  ∧ code_out_of_date alice w
  ∧ Forall (λ call, call ≠ requestResetCode alice) cs
  ∧ ¬ ∃ tok,
        (findByEmailAndRequestResetPasswordToken alice (Some "12345678")
           (run cs w)).1 = inr tok.
Proof.
  intros w cs.
  assert (∀ a b, (a ≤ b)%nat → clock w a ≤ clock w b) as Hmono.
  { intros a b Hab. simpl. lia. }
  assert (code_out_of_date alice w) as Hold.
  { intros i u rc Hf Hrc. vm_compute in Hf. injection Hf as <- <-.
    injection Hrc as <-. vm_compute. reflexivity. }
  assert (Forall (λ call, call ≠ requestResetCode alice) cs) as Hcs.
  { repeat constructor; discriminate. }
  split; [exact Hmono|]. split; [exact Hold|]. split; [exact Hcs|].
  exact (expired_code_is_never_accepted alice w cs (Some "12345678")
           Hmono Hold Hcs).
Defined.

Lemma reset_flow_completes_witness :
  let u := user alice None None 2 in
  let w := world [u; user bob None None 0] t0 in
  let r1 := findByEmailAndRequestResetPasswordCode alice w in
  let r2 := findByEmailAndRequestResetPasswordToken alice (Some "01234567") r1.2 in
  r1.1 = inr ()
  ∧ ∃ tok,
      r2.1 = inr tok
      ∧ let r3 := findByEmailAndResetPassword alice (Some tok) "new password" r2.2 in
        (∃ returned, r3.1 = inr returned)
        ∧ users r3.2
          = [ {| email := alice; password := "bcrypt:new password";
                 resetPasswordCode := None; resetPasswordToken := None;
                 resetPasswordCodeGuessCount := 0 |};
              user bob None None 0 ].
Proof.
  intros u w.
  assert (0 < RESET_PASSWORD_MAX_GUESS_COUNT) as Hmax by (simpl; lia).
  assert (clock w (1 + clock_reads w) - clock w (clock_reads w)
          ≤ RESET_PASSWORD_CODE_TIME_PERIOD_LENGTH) as Hcode by (simpl; lia).
  assert (clock w (4 + clock_reads w) - clock w (3 + clock_reads w)
          ≤ RESET_PASSWORD_TOKEN_TIME_PERIOD_LENGTH) as Htoken by (simpl; lia).
  exact (reset_flow_completes alice "new password" w 0 u eq_refl
           Hmax Hcode Htoken).
Defined.

Lemma login_reaches_normal_emails_only_witness :
  let w := world [user "User@Example.com" None None 0; user alice None None 0] t0 in
  let e := " USER@Example.com " in
  findByCreds (JS.trim (JS.toLowerCase e)) "correct" w = findByCreds e "correct" w
  ∧ ∀ session,
      (findByCreds e "correct" w).1 = inr session →
      ∃ i u,
        users w !! i = Some u
        ∧ session_user session = getPublic u
        ∧ email u = JS.trim (JS.toLowerCase e)
        ∧ JS.trim (JS.toLowerCase (email u)) = email u
        ∧ bcrypt_compare "correct" (password u) = true.
Proof.
  intros w e. exact (login_reaches_normal_emails_only e "correct" w).
Defined.

Lemma register_needs_equal_passwords_witness :
  let w := world [] t0 in
  let info := ("new@example.com", "secret", "secert") in
  info_password info ≠ info_password2 info
  ∧ register info w = (inl PasswordsDiffer, w).
Proof.
  intros w info.
  assert (info_password info ≠ info_password2 info) as Hne by discriminate.
  split; [exact Hne|].
  exact (proj1 (register_needs_equal_passwords info w) Hne).
Defined.

End MoreScenarios.

Section ArticleScenarios.

#[local] Existing Instance Demo2.sources.
#[local] Existing Instance Demo2.services.

Import Articles.

Lemma upserted_article_is_found_again_witness :
  let s := Demo2.store in
  let a := {| title := "first"; paragraphs := ["text of first"];
              extract := ""; sourceId := 0; key := "first" |} in
  (findArticleByKey "visir" "first" (Some true) s).1 = inr a
  ∧ ∀ upsert s',
      articles s' = [a] →
      article_sources s' = article_sources s →
      findArticleByKey "visir" "first" upsert s' = (inr a, s').
Proof.
  intros s a. split; [reflexivity|].
  exact (ArticleFacts.upserted_article_is_found_again
           "visir" "first" s a 0 "visir" eq_refl eq_refl eq_refl eq_refl).
Defined.

Lemma web_search_results_witness :
  let s := Demo2.store in
  ∃ previews,
    (webSearch "weather" s).1 = inr previews
    ∧ url <$> previews = ["visir/first"; "mblis/third"]
    ∧ ∃ items,
        Google_search "weather" = inr items
        ∧ sublist (url <$> previews) (link <$> items)
        ∧ ∀ p, p ∈ previews →
            ∃ id k a s0,
              getIdentifier (url p) = inr id
              ∧ getArticleKey (url p) = inr k
              ∧ preview_key p = Some k
              ∧ preview_source p = find_source id (article_sources s)
              ∧ articles s0 = articles s
              ∧ article_sources s0 = article_sources s
              ∧ (findArticleByKey id k None s0).1 = inr a
              ∧ (0 < String.length
                       (JS.trim (String.concat "" (paragraphs a))))%nat.
Proof.
  intros s. eexists. split; [reflexivity|]. split; [reflexivity|].
  exact (ArticleFacts.web_search_results "weather" s _ eq_refl).
Defined.

Lemma web_search_needs_every_source_witness :
  let s := Demo2.store in
  let it := {| link := "ruvis/third"; snippet := "three";
               item_title := "Third" |} in
  getIdentifier (link it) = inr "ruvis"
  ∧ find_source "ruvis" (article_sources s) = None
  ∧ ∃ err, (webSearch "news" s).1 = inl err.
Proof.
  intros s it. split; [reflexivity|]. split; [reflexivity|].
  refine (ArticleFacts.web_search_needs_every_source
            "news" s _ it "ruvis" eq_refl _ eq_refl eq_refl).
  do 2 constructor. constructor.
Defined.

End ArticleScenarios.
